(** * simple-svelte-query: the promise cache of [src/lib/query.svelte.ts]

    A shallow embedding of the classes [Query], [CacheEntry] and
    [QueryClient], together with the two JavaScript built-ins the cache
    relies on for its keys ([JSON.stringify] and [JSON.parse]), and the
    properties of the cache stated over it.

    Conventions of the embedding.
    - A JavaScript string is a list of code units ([list ascii]); only the
      code units 0..255 are represented.
    - A JavaScript number is a [JsNumber]: [NaN], the two infinities, or an
      integer-valued finite number carried as a [Z].  Fractions are outside
      the represented domain, and the embedding is exact for the integers
      that print as plain decimal digits without rounding (the safe
      integers).
    - Key fragments and cached values are the values of [JsValue]:
      [undefined], [null], booleans, numbers, strings, functions and nested
      arrays.  Plain objects are not represented.
    - Mutable state is threaded explicitly: the process-wide state (clock,
      the static [QueryClient.staleTime], the promise heap, the log of
      [queryFn] invocations, Svelte's hydration store) is a [World]; the
      private map [#queries] of one client is a [QueryClient.t] value.
    - A method that can throw returns an [option].
    - [createQuery], the reactive wrapper built on Svelte's [$derived], is
      not embedded; the imperative methods are. *)

From Stdlib Require Import ZArith Ascii String List Bool Lia.
From Stdlib Require Import DecimalString DecimalZ DecimalN DecimalPos DecimalFacts.
From stdpp Require Import base option list gmap strings.

Local Open Scope Z_scope.
Local Open Scope list_scope.

(** ** JavaScript values *)

Definition JsString := list ascii.

(** A string literal of the development, as a list of code units. *)
Definition js (s : string) : JsString := list_ascii_of_string s.

Inductive JsNumber : Type :=
| NaN
| Infinity
| NegInfinity
| Fin (z : Z).

Unset Elimination Schemes.
Inductive JsValue : Type :=
| JUndefined
| JNull
| JBool (b : bool)
| JNumber (n : JsNumber)
| JString (s : JsString)
| JFunction (id : nat)
| JArray (elements : list JsValue).
Set Elimination Schemes.

(** Induction over [JsValue] with the hypothesis available for every element
    of a nested array. *)
Definition JsValue_nested_ind (P : JsValue -> Prop)
    (Hundef : P JUndefined) (Hnull : P JNull)
    (Hbool : forall b, P (JBool b)) (Hnum : forall n, P (JNumber n))
    (Hstr : forall s, P (JString s)) (Hfun : forall id, P (JFunction id))
    (Harr : forall l, Forall P l -> P (JArray l)) : forall v, P v :=
  fix go (v : JsValue) : P v :=
    match v with
    | JUndefined => Hundef
    | JNull => Hnull
    | JBool b => Hbool b
    | JNumber n => Hnum n
    | JString s => Hstr s
    | JFunction id => Hfun id
    | JArray l =>
        Harr l ((fix all (l : list JsValue) : Forall P l :=
                   match l with
                   | [] => List.Forall_nil P
                   | x :: l' => List.Forall_cons P x l' (go x) (all l')
                   end) l)
    end.

(** ** Number arithmetic used by the cache: [a - b] and [a > b]

    On the non-finite values these are the IEEE operations.  On finite
    values the subtraction is that of [Z]: it is the subtraction of doubles
    where the operands and the difference are safe integers
    ([safe_integer]), and beyond that range, where doubles round, it is
    not. *)

(** [Number.isSafeInteger]. *)
Definition safe_integer (z : Z) : Prop := - (2 ^ 53 - 1) <= z <= 2 ^ 53 - 1.

Definition js_sub (a b : JsNumber) : JsNumber :=
  match a, b with
  | NaN, _ | _, NaN => NaN
  | Infinity, Infinity => NaN
  | NegInfinity, NegInfinity => NaN
  | Infinity, _ => Infinity
  | NegInfinity, _ => NegInfinity
  | Fin _, Infinity => NegInfinity
  | Fin _, NegInfinity => Infinity
  | Fin x, Fin y => Fin (x - y)
  end.

Definition js_gt (a b : JsNumber) : bool :=
  match a, b with
  | NaN, _ | _, NaN => false
  | Infinity, Infinity => false
  | Infinity, _ => true
  | _, Infinity => false
  | NegInfinity, _ => false
  | Fin _, NegInfinity => true
  | Fin x, Fin y => y <? x
  end.

(** ** [JSON.stringify] on key arrays *)

Module JSON.

Definition DQUOTE : ascii := "034"%char.
Definition BACKSLASH : ascii := "092"%char.

Fixpoint chars_of_uint (d : Decimal.uint) : JsString :=
  match d with
  | Decimal.Nil => []
  | Decimal.D0 d => "0"%char :: chars_of_uint d
  | Decimal.D1 d => "1"%char :: chars_of_uint d
  | Decimal.D2 d => "2"%char :: chars_of_uint d
  | Decimal.D3 d => "3"%char :: chars_of_uint d
  | Decimal.D4 d => "4"%char :: chars_of_uint d
  | Decimal.D5 d => "5"%char :: chars_of_uint d
  | Decimal.D6 d => "6"%char :: chars_of_uint d
  | Decimal.D7 d => "7"%char :: chars_of_uint d
  | Decimal.D8 d => "8"%char :: chars_of_uint d
  | Decimal.D9 d => "9"%char :: chars_of_uint d
  end.

(** [Number::toString] of an integer: decimal digits, a leading minus sign
    for a negative one.  This is the text JavaScript prints for integers of
    magnitude below [1e21]; from there on JavaScript prints an exponent,
    which is not modelled. *)
Definition Number_toString (z : Z) : JsString :=
  match Z.to_int z with
  | Decimal.Pos d => chars_of_uint d
  | Decimal.Neg d => "-"%char :: chars_of_uint d
  end.

Definition hex_char (n : N) : ascii :=
  if (n <? 10)%N then ascii_of_N (48 + n) else ascii_of_N (87 + n).

(** One code unit inside [QuoteJSONString]. *)
Definition quote_unit (c : ascii) : JsString :=
  let n := N_of_ascii c in
  if (n =? 8)%N then [BACKSLASH; "b"%char]
  else if (n =? 9)%N then [BACKSLASH; "t"%char]
  else if (n =? 10)%N then [BACKSLASH; "n"%char]
  else if (n =? 12)%N then [BACKSLASH; "f"%char]
  else if (n =? 13)%N then [BACKSLASH; "r"%char]
  else if (n =? 34)%N then [BACKSLASH; DQUOTE]
  else if (n =? 92)%N then [BACKSLASH; BACKSLASH]
  else if (n <? 32)%N then
    [BACKSLASH; "u"%char; "0"%char; "0"%char; hex_char (n / 16); hex_char (n mod 16)]
  else [c].

Definition QuoteJSONString (s : JsString) : JsString :=
  DQUOTE :: flat_map quote_unit s ++ [DQUOTE].

(** The elements of an array joined by commas. *)
Fixpoint join_commas (parts : list JsString) : JsString :=
  match parts with
  | [] => []
  | [p] => p
  | p :: rest => p ++ ","%char :: join_commas rest
  end.

(** [SerializeJSONProperty]: [None] stands for the result [undefined], which
    [SerializeJSONArray] prints as [null]. *)
Fixpoint SerializeJSONProperty (v : JsValue) : option JsString :=
  match v with
  | JUndefined => None
  | JFunction _ => None
  | JNull => Some (js "null")
  | JBool true => Some (js "true")
  | JBool false => Some (js "false")
  | JNumber (Fin z) => Some (Number_toString z)
  | JNumber _ => Some (js "null")
  | JString s => Some (QuoteJSONString s)
  | JArray l =>
      Some ("["%char ::
            join_commas (map (fun x => default (js "null") (SerializeJSONProperty x)) l)
            ++ ["]"%char])
  end.

Definition element (v : JsValue) : JsString :=
  default (js "null") (SerializeJSONProperty v).

Definition SerializeJSONArray (l : list JsValue) : JsString :=
  "["%char :: join_commas (map element l) ++ ["]"%char].

(** [JSON.stringify(queryKey)] for a key array. *)
Definition stringify (queryKey : list JsValue) : JsString :=
  SerializeJSONArray queryKey.

(** ** [JSON.parse]

    A result [None] stands for the [SyntaxError] that [JSON.parse] throws
    (and for texts whose value lies outside [JsValue]: objects, fractions,
    exponents, escapes above code unit 255). *)

Definition is_ws (c : ascii) : bool :=
  let n := N_of_ascii c in
  ((n =? 32) || (n =? 9) || (n =? 10) || (n =? 13))%N.

Fixpoint skip_ws (s : JsString) : JsString :=
  match s with
  | c :: r => if is_ws c then skip_ws r else s
  | [] => []
  end.

Definition digit_of (c : ascii) : option (Decimal.uint -> Decimal.uint) :=
  if Ascii.eqb c "0" then Some Decimal.D0
  else if Ascii.eqb c "1" then Some Decimal.D1
  else if Ascii.eqb c "2" then Some Decimal.D2
  else if Ascii.eqb c "3" then Some Decimal.D3
  else if Ascii.eqb c "4" then Some Decimal.D4
  else if Ascii.eqb c "5" then Some Decimal.D5
  else if Ascii.eqb c "6" then Some Decimal.D6
  else if Ascii.eqb c "7" then Some Decimal.D7
  else if Ascii.eqb c "8" then Some Decimal.D8
  else if Ascii.eqb c "9" then Some Decimal.D9
  else None.

(** The longest run of decimal digits at the head of [s]. *)
Fixpoint read_digits (s : JsString) : Decimal.uint * JsString :=
  match s with
  | c :: r =>
      match digit_of c with
      | Some d => let '(u, r') := read_digits r in (d u, r')
      | None => (Decimal.Nil, s)
      end
  | [] => (Decimal.Nil, [])
  end.

Definition continues_number (s : JsString) : bool :=
  match s with
  | c :: _ => Ascii.eqb c "." || Ascii.eqb c "e" || Ascii.eqb c "E"
  | [] => false
  end.

(** The integer part of a JSON number: [0], or a digit run that does not
    start with [0]. *)
Definition parse_int (s : JsString) : option (Decimal.uint * JsString) :=
  match read_digits s with
  | (Decimal.Nil, _) => None
  | (Decimal.D0 Decimal.Nil, r) =>
      if continues_number r then None else Some (Decimal.D0 Decimal.Nil, r)
  | (Decimal.D0 _, _) => None
  | (d, r) => if continues_number r then None else Some (d, r)
  end.

Definition parse_number (s : JsString) : option (JsValue * JsString) :=
  match s with
  | c :: r =>
      if Ascii.eqb c "-" then
        match parse_int r with
        | Some (d, r') => Some (JNumber (Fin (Z.of_int (Decimal.Neg d))), r')
        | None => None
        end
      else
        match parse_int s with
        | Some (d, r') => Some (JNumber (Fin (Z.of_int (Decimal.Pos d))), r')
        | None => None
        end
  | [] => None
  end.

Definition hex_value (c : ascii) : option N :=
  let n := N_of_ascii c in
  if ((48 <=? n) && (n <=? 57))%N then Some (n - 48)%N
  else if ((97 <=? n) && (n <=? 102))%N then Some (n - 87)%N
  else if ((65 <=? n) && (n <=? 70))%N then Some (n - 55)%N
  else None.

Definition hex4 (h1 h2 h3 h4 : ascii) : option N :=
  match hex_value h1, hex_value h2, hex_value h3, hex_value h4 with
  | Some a, Some b, Some c, Some d => Some (((a * 16 + b) * 16 + c) * 16 + d)%N
  | _, _, _, _ => None
  end.

(** The code unit of a one-letter escape. *)
Definition unescape (e : ascii) : option ascii :=
  if Ascii.eqb e DQUOTE then Some DQUOTE
  else if Ascii.eqb e BACKSLASH then Some BACKSLASH
  else if Ascii.eqb e "/" then Some "/"%char
  else if Ascii.eqb e "b" then Some "008"%char
  else if Ascii.eqb e "f" then Some "012"%char
  else if Ascii.eqb e "n" then Some "010"%char
  else if Ascii.eqb e "r" then Some "013"%char
  else if Ascii.eqb e "t" then Some "009"%char
  else None.

Definition prepend (c : ascii) (r : option (JsString * JsString)) :
    option (JsString * JsString) :=
  match r with
  | Some (body, rest) => Some (c :: body, rest)
  | None => None
  end.

(** The characters of a string after its opening quote, up to and including
    the closing quote. *)
Fixpoint parse_string_body (s : JsString) : option (JsString * JsString) :=
  match s with
  | [] => None
  | c :: r =>
      if Ascii.eqb c DQUOTE then Some ([], r)
      else if Ascii.eqb c BACKSLASH then
        match r with
        | [] => None
        | e :: r1 =>
            if Ascii.eqb e "u" then
              match r1 with
              | h1 :: h2 :: h3 :: h4 :: r2 =>
                  match hex4 h1 h2 h3 h4 with
                  | Some n =>
                      if (n <? 256)%N
                      then prepend (ascii_of_N n) (parse_string_body r2)
                      else None
                  | None => None
                  end
              | _ => None
              end
            else
              match unescape e with
              | Some c' => prepend c' (parse_string_body r1)
              | None => None
              end
        end
      else if (N_of_ascii c <? 32)%N then None
      else prepend c (parse_string_body r)
  end.

Fixpoint strip_prefix (p s : JsString) : option JsString :=
  match p, s with
  | [], _ => Some s
  | a :: p', b :: s' => if Ascii.eqb a b then strip_prefix p' s' else None
  | _ :: _, [] => None
  end.

Definition parse_literal (name : string) (v : JsValue) (s : JsString) :
    option (JsValue * JsString) :=
  match strip_prefix (js name) s with
  | Some r => Some (v, r)
  | None => None
  end.

Fixpoint parse_value (fuel : nat) (s : JsString) {struct fuel} :
    option (JsValue * JsString) :=
  match fuel with
  | O => None
  | S fuel' =>
      match skip_ws s with
      | [] => None
      | c :: r =>
          if Ascii.eqb c "[" then
            match skip_ws r with
            | c' :: r' =>
                if Ascii.eqb c' "]" then Some (JArray [], r')
                else
                  match parse_elements fuel' r with
                  | Some (vs, r'') => Some (JArray vs, r'')
                  | None => None
                  end
            | [] => None
            end
          else if Ascii.eqb c DQUOTE then
            match parse_string_body r with
            | Some (body, r') => Some (JString body, r')
            | None => None
            end
          else if Ascii.eqb c "n" then parse_literal "null" JNull (c :: r)
          else if Ascii.eqb c "t" then parse_literal "true" (JBool true) (c :: r)
          else if Ascii.eqb c "f" then parse_literal "false" (JBool false) (c :: r)
          else parse_number (c :: r)
      end
  end
with parse_elements (fuel : nat) (s : JsString) {struct fuel} :
    option (list JsValue * JsString) :=
  match fuel with
  | O => None
  | S fuel' =>
      match parse_value fuel' s with
      | Some (v, r) =>
          match skip_ws r with
          | c :: r' =>
              if Ascii.eqb c "," then
                match parse_elements fuel' r' with
                | Some (vs, r'') => Some (v :: vs, r'')
                | None => None
                end
              else if Ascii.eqb c "]" then Some ([v], r')
              else None
          | [] => None
          end
      | None => None
      end
  end.

(** [JSON.parse(text)]. *)
Definition parse (text : JsString) : option JsValue :=
  match parse_value (S (length text)) text with
  | Some (v, r) =>
      match skip_ws r with
      | [] => Some v
      | _ :: _ => None
      end
  | None => None
  end.

(** What a value becomes on its way through [JSON.stringify] and back:
    [undefined], functions and the non-finite numbers are [null]. *)
Fixpoint revived (v : JsValue) : JsValue :=
  match v with
  | JUndefined => JNull
  | JFunction _ => JNull
  | JNumber (Fin z) => JNumber (Fin z)
  | JNumber _ => JNull
  | JArray l => JArray (map revived l)
  | JNull => JNull
  | JBool b => JBool b
  | JString s => JString s
  end.

(** A key fragment that JSON represents: no [undefined], function or
    non-finite number anywhere inside it. *)
Fixpoint representable (v : JsValue) : bool :=
  match v with
  | JUndefined => false
  | JFunction _ => false
  | JNumber (Fin _) => true
  | JNumber _ => false
  | JArray l => forallb representable l
  | JNull => true
  | JBool _ => true
  | JString _ => true
  end.

(** *** Predicates on serialized text used in the round-trip proof *)

(** A text position at which an array element ends. *)
Definition delimited (rest : JsString) : Prop :=
  exists r, rest = ","%char :: r \/ rest = "]"%char :: r.

Definition starts_with_one_of (chars s : JsString) : Prop :=
  exists c tl, s = c :: tl /\ In c chars.

Definition number_start : JsString -> Prop :=
  starts_with_one_of (js "-0123456789").

Definition token_start : JsString -> Prop :=
  starts_with_one_of (DQUOTE :: js "[ntf-0123456789").

(** A fragment whose serialization carries its own end: every one but a
    finite number, whose digits end only where a delimiter follows. *)
Definition self_delimiting (v : JsValue) : bool :=
  match v with
  | JNumber (Fin _) => false
  | _ => true
  end.

(** The statement proved for every value by induction: its serialization,
    read back with enough fuel, is its revived form, whatever follows it for
    a self-delimiting value, and before a delimiter for a number. *)
Definition parses_back (v : JsValue) : Prop :=
  forall fuel rest,
    delimited rest \/ self_delimiting v = true ->
    (length (element v) < fuel)%nat ->
    parse_value fuel (element v ++ rest) = Some (revived v, rest).

End JSON.

(** ** Promises, [queryFn] and the process-wide state *)

(** A promise is an object with an identity: its address in the promise
    heap of the [World]. *)
Definition Promise := nat.

(** What a promise settles into ([Pending]: it never settles). *)
Inductive Settlement : Type :=
| Pending
| Fulfilled (value : JsValue)
| Rejected (reason : JsValue).

Definition AbortSignal := nat.

(** The argument [{ signal, queryKey }] of a [queryFn]. *)
Record QueryContext : Type := {
  signal : option AbortSignal;
  context_queryKey : JsValue
}.

(** A caller-supplied [queryFn]: an identity, by which its invocations are
    told apart in the log, and the promise it returns for a context. *)
Record QueryFn : Type := {
  fn_id : nat;
  fn_run : QueryContext -> Settlement
}.

Record World : Type := {
  now : Z;                                  (* Date.now() *)
  QueryClient_staleTime : JsNumber;         (* static QueryClient.staleTime *)
  promises : list Settlement;               (* the promise heap *)
  calls : list (nat * QueryContext);        (* queryFn invocations so far *)
  hydration : gmap JsString Promise         (* svelte: values awaiting hydration *)
}.

(** The state at module load: [static staleTime = 1000 * 60 * 5]. *)
Definition initial_World (t : Z) : World :=
  {| now := t; QueryClient_staleTime := Fin (1000 * 60 * 5);
     promises := []; calls := []; hydration := ∅ |}.

Definition set_staleTime (d : JsNumber) (w : World) : World :=
  {| now := now w; QueryClient_staleTime := d; promises := promises w;
     calls := calls w; hydration := hydration w |}.

(** The clock moves between two statements of the caller. *)
Definition at_time (t : Z) (w : World) : World :=
  {| now := t; QueryClient_staleTime := QueryClient_staleTime w;
     promises := promises w; calls := calls w; hydration := hydration w |}.

(** A new promise object with the given fate. *)
Definition new_Promise (s : Settlement) (w : World) : Promise * World :=
  (length (promises w),
   {| now := now w; QueryClient_staleTime := QueryClient_staleTime w;
      promises := promises w ++ [s]; calls := calls w;
      hydration := hydration w |}).

(** [Promise.resolve(value)] for a value that is not a thenable. *)
Definition Promise_resolve (value : JsValue) (w : World) : Promise * World :=
  new_Promise (Fulfilled value) w.

(** Calling a [queryFn]: the call is logged and its promise allocated.  The
    embedding covers the [queryFn]s that return, on each call, a promise of
    their own making; one that throws before returning, or hands out a
    promise it has returned before, is outside it. *)
Definition invoke (f : QueryFn) (ctx : QueryContext) (w : World) : Promise * World :=
  new_Promise (fn_run f ctx)
    {| now := now w; QueryClient_staleTime := QueryClient_staleTime w;
       promises := promises w; calls := calls w ++ [(fn_id f, ctx)];
       hydration := hydration w |}.

(** [hydratable(key, fn)] of svelte: the value stored under [key] by the
    server render when there is one, else [fn()]. *)
Definition hydratable (key : JsString) (fn : World -> option (Promise * World))
    (w : World) : option (Promise * World) :=
  match hydration w !! key with
  | Some p => Some (p, w)
  | None => fn w
  end.

(** [String.prototype.startsWith] and [slice(0, -1)]. *)
Fixpoint startsWith (s p : JsString) {struct p} : bool :=
  match p, s with
  | [], _ => true
  | a :: p', b :: s' => Ascii.eqb a b && startsWith s' p'
  | _ :: _, [] => false
  end.

Definition slice_0_m1 (s : JsString) : JsString := take (length s - 1) s.

(** ** [QueryOptions] and [class Query] *)

Record QueryOptions : Type := {
  staleTime : option JsNumber;
  queryKey : list JsValue;
  queryFn : QueryFn
}.

(** [queryOptions]: the identity helper. *)
Definition queryOptions (options : QueryOptions) : QueryOptions := options.

Module Query.

(** The private fields [#staleTime], [#queryKey] and [#queryFn]. *)
Record t : Type := {
  p_staleTime : JsNumber;
  p_queryKey : JsString;
  p_queryFn : QueryFn
}.

(** [constructor({ staleTime = QueryClient.staleTime, queryKey, queryFn })] *)
Definition new (options : QueryOptions) (w : World) : t :=
  {| p_staleTime := default (QueryClient_staleTime w) (staleTime options);
     p_queryKey := JSON.stringify (queryKey options);
     p_queryFn := queryFn options |}.

(** [get key()] *)
Definition key (q : t) : JsString := p_queryKey q.

(** [get queryKey()]: [None] when [JSON.parse] throws. *)
Definition queryKey (q : t) : option JsValue := JSON.parse (p_queryKey q).

(** [isStale(lastUpdated)]: [Date.now() - lastUpdated > this.#staleTime]. *)
Definition isStale (q : t) (lastUpdated : JsNumber) (w : World) : bool :=
  js_gt (js_sub (Fin (now w)) lastUpdated) (p_staleTime q).

(** [fetch(signal?)] *)
Definition fetch (q : t) (sig : option AbortSignal) (w : World) :
    option (Promise * World) :=
  k ← queryKey q;
  Some (invoke (p_queryFn q) {| signal := sig; context_queryKey := k |} w).

End Query.

(** ** [class CacheEntry] *)

Module CacheEntry.

Record t : Type := {
  promise : Promise;
  createdAt : JsNumber
}.

(** [constructor(promise)], with [#createdAt = $state(Date.now())]. *)
Definition new (p : Promise) (w : World) : t :=
  {| promise := p; createdAt := Fin (now w) |}.

Definition invalidate (e : t) : t :=
  {| promise := promise e; createdAt := NegInfinity |}.

End CacheEntry.

(** ** [class QueryClient] *)

Module QueryClient.

(** The private map [#queries] of one client. *)
Record t : Type := {
  queries : gmap JsString CacheEntry.t
}.

Definition set (k : JsString) (e : CacheEntry.t) (c : t) : t :=
  {| queries := <[k := e]> (queries c) |}.

(** [constructor(defaultStaleTime = 1000 * 60 * 5)] *)
Definition new (defaultStaleTime : option JsNumber) (w : World) : t * World :=
  ({| queries := ∅ |},
   set_staleTime (default (Fin (1000 * 60 * 5)) defaultStaleTime) w).

(** [fetchQuery(options)].  The test [this.#queries.get(query.key) !== entry]
    holds exactly in the two branches that built a new [CacheEntry]. *)
Definition fetchQuery (options : QueryOptions) (c : t) (w : World) :
    option (Promise * t * World) :=
  let query := Query.new options w in
  match queries c !! Query.key query with
  | Some cached =>
      if Query.isStale query (CacheEntry.createdAt cached) w then
        '(p, w') ← Query.fetch query None w;
        let entry := CacheEntry.new p w' in
        Some (CacheEntry.promise entry, set (Query.key query) entry c, w')
      else Some (CacheEntry.promise cached, c, w)
  | None =>
      '(p, w') ← hydratable (Query.key query) (Query.fetch query None) w;
      let entry := CacheEntry.new p w' in
      Some (CacheEntry.promise entry, set (Query.key query) entry c, w')
  end.

(** [ensureQuery(options)] *)
Definition ensureQuery (options : QueryOptions) (c : t) (w : World) :
    option (Promise * t * World) :=
  let query := Query.new options w in
  match queries c !! Query.key query with
  | Some cached => Some (CacheEntry.promise cached, c, w)
  | None =>
      '(p, w') ← hydratable (Query.key query) (Query.fetch query None) w;
      let entry := CacheEntry.new p w' in
      Some (CacheEntry.promise entry, set (Query.key query) entry c, w')
  end.

(** [setQuery(queryKey, value)] *)
Definition setQuery (queryKey : list JsValue) (value : JsValue) (c : t) (w : World) :
    t * World :=
  let '(p, w') := Promise_resolve value w in
  (set (JSON.stringify queryKey) (CacheEntry.new p w') c, w').

(** [removeQuery(query)] *)
Definition removeQuery (query : Query.t) (c : t) : t :=
  {| queries := delete (Query.key query) (queries c) |}.

(** [clear()] *)
Definition clear (c : t) : t := {| queries := ∅ |}.

(** [getQuery(queryKey)]: [None] is [undefined]. *)
Definition getQuery (queryKey : list JsValue) (c : t) : option Promise :=
  CacheEntry.promise <$> queries c !! JSON.stringify queryKey.

(** [invalidateQuery(queryKey)] *)
Definition invalidateQuery (queryKey : list JsValue) (c : t) : t :=
  {| queries := alter CacheEntry.invalidate (JSON.stringify queryKey) (queries c) |}.

(** [invalidateQueries(queryKey = [])]: the [forEach] over the map is a fold
    over its entries, each matching key having its entry invalidated in
    place. *)
Definition invalidateQueries (queryKey : option (list JsValue)) (c : t) : t :=
  let stringKey := slice_0_m1 (JSON.stringify (default [] queryKey)) in
  {| queries :=
       map_fold
         (fun key _ m =>
            if startsWith key stringKey
            then alter CacheEntry.invalidate key m
            else m)
         (queries c) (queries c) |}.

End QueryClient.

(** ** Callers

    A caller issuing several [fetchQuery] calls on one client, each after the
    clock has moved to the given time. *)
Fixpoint fetch_sequence (requests : list (Z * QueryOptions)) (c : QueryClient.t)
    (w : World) : option (list Promise * QueryClient.t * World) :=
  match requests with
  | [] => Some ([], c, w)
  | (t, options) :: requests' =>
      '(p, c', w') ← QueryClient.fetchQuery options c (at_time t w);
      '(ps, c'', w'') ← fetch_sequence requests' c' w';
      Some (p :: ps, c'', w'')
  end.

(** The context a [Query] built from [options] hands to its [queryFn] when
    [fetchQuery] or [ensureQuery] call [fetch()] without a signal. *)
Definition context_of (options : QueryOptions) : QueryContext :=
  {| signal := None;
     context_queryKey := JArray (map JSON.revived (queryKey options)) |}.

(** The entry [fetchQuery] and [ensureQuery] find for [options] misses, and
    so does the hydration store: [queryFn] is about to run. *)
Definition misses (options : QueryOptions) (c : QueryClient.t) (w : World) : Prop :=
  QueryClient.queries c !! JSON.stringify (queryKey options) = None /\
  hydration w !! JSON.stringify (queryKey options) = None.

(** The entry [fetchQuery] finds for [options] is stale. *)
Definition finds_stale (options : QueryOptions) (c : QueryClient.t) (w : World) : Prop :=
  exists cached,
    QueryClient.queries c !! JSON.stringify (queryKey options) = Some cached /\
    Query.isStale (Query.new options w) (CacheEntry.createdAt cached) w = true.

(** A later state of the process: the promises that existed still do, with
    the same fate. *)
Definition later (w w' : World) : Prop := promises w `prefix_of` promises w'.

(** The prefix is empty, or its last fragment is self-delimiting. *)
Definition ends_self_delimiting (p : list JsValue) : Prop :=
  match last p with
  | Some x => JSON.self_delimiting x = true
  | None => True
  end.

(** [n >= 0] on numbers. *)
Definition non_negative (n : JsNumber) : bool :=
  match n with
  | Fin z => 0 <=? z
  | Infinity => true
  | NaN | NegInfinity => false
  end.

(** [fetchQuery] runs the [queryFn] of [options]: it returns, and the log of
    invocations has grown by that call. *)
Definition recomputes (options : QueryOptions) (c : QueryClient.t) (w : World) : Prop :=
  exists p c' w',
    QueryClient.fetchQuery options c w = Some (p, c', w') /\
    calls w' = calls w ++ [(fn_id (queryFn options), context_of options)].

(** ** [createQuery]

    [createQuery] wraps three derivations of Svelte around the cache; what
    is embedded is one evaluation of the body of its [entry] derivation, for
    the options the caller's function returned and the signal
    [getAbortSignal()] gave.  When Svelte re-runs the derivation is its
    concern and is not modelled. *)
Definition createQuery_entry (options : QueryOptions) (sig : AbortSignal)
    (c : QueryClient.t) (w : World) : option (CacheEntry.t * QueryClient.t * World) :=
  let query := Query.new options w in
  let cached := QueryClient.queries c !! Query.key query in
  match cached with
  | Some e =>
      if negb (Query.isStale query (CacheEntry.createdAt e) w) then Some (e, c, w)
      else
        '(p, w') ← Query.fetch query (Some sig) w;
        let newEntry := CacheEntry.new p w' in
        Some (newEntry, QueryClient.set (Query.key query) newEntry c, w')
  | None =>
      '(p, w') ← hydratable (Query.key query) (Query.fetch query (Some sig)) w;
      let newEntry := CacheEntry.new p w' in
      Some (newEntry, QueryClient.set (Query.key query) newEntry c, w')
  end.

(** The context of a [fetch(signal)]. *)
Definition context_with (sig : option AbortSignal) (options : QueryOptions) :
    QueryContext :=
  {| signal := sig;
     context_queryKey := JArray (map JSON.revived (queryKey options)) |}.



(** A stale time under which nothing is ever stale. *)
Definition never_stale (d : JsNumber) : Prop := d = Infinity \/ d = NaN.

(** ** States used as concrete instances *)

Definition constant_fn (id : nat) (s : Settlement) : QueryFn :=
  {| fn_id := id; fn_run := fun _ => s |}.

Definition fulfilling_fn (id : nat) (v : string) : QueryFn :=
  constant_fn id (Fulfilled (JString (js v))).

Definition options_for (st : option JsNumber) (key : list JsValue) (f : QueryFn) :
    QueryOptions :=
  {| staleTime := st; queryKey := key; queryFn := f |}.

(** [new QueryClient(5000)] at time 1000, then [setQuery(key, 'old')]. *)
Definition seeded (key : list JsValue) : QueryClient.t * World :=
  let '(c, w) := QueryClient.new (Some (Fin 5000)) (initial_World 1000) in
  QueryClient.setQuery key (JString (js "old")) c w.

(** The key [['users', 1]], the entry [seeded] stores, and two [queryFn]s. *)
Definition users_1 : list JsValue := [JString (js "users"); JNumber (Fin 1)].

Definition seeded_entry : CacheEntry.t :=
  {| CacheEntry.promise := 0%nat; CacheEntry.createdAt := Fin 1000 |}.

Definition resolving_fn : QueryFn := constant_fn 1 (Fulfilled (JString (js "new"))).

Definition rejecting_fn : QueryFn := constant_fn 2 (Rejected (JString (js "boom"))).

(** A page being hydrated at time 1000: the server render left a promise,
    at address 0, under the key [['users', 1]]. *)
Definition hydrating_World : World :=
  {| now := 1000; QueryClient_staleTime := Fin 5000;
     promises := [Fulfilled (JString (js "from the server"))]; calls := [];
     hydration := {[JSON.stringify users_1 := 0%nat]} |}.

(** [new QueryClient(5000)] at time 1000. *)
Definition fresh_client : QueryClient.t * World :=
  QueryClient.new (Some (Fin 5000)) (initial_World 1000).

(** Case analysis on the first character of a serialized token. *)
Ltac each_start H :=
  simpl in H; repeat (destruct H as [<- | H]; [reflexivity |]); contradiction.

(** * Properties *)

(** ** [JSON.parse] after [JSON.stringify] *)

Module JSONFacts.
Import JSON.

Lemma delimited_comma r : delimited (","%char :: r).
Proof. exists r; by left. Qed.

Lemma delimited_bracket r : delimited ("]"%char :: r).
Proof. exists r; by right. Qed.

Lemma read_digits_delimited rest : delimited rest -> read_digits rest = (Decimal.Nil, rest).
Proof. intros [r [-> | ->]]; reflexivity. Qed.

Lemma continues_number_delimited rest : delimited rest -> continues_number rest = false.
Proof. intros [r [-> | ->]]; reflexivity. Qed.

Lemma read_digits_chars d rest :
  delimited rest -> read_digits (chars_of_uint d ++ rest) = (d, rest).
Proof.
  intros Hd. induction d; simpl; rewrite ?IHd; try reflexivity.
  by apply read_digits_delimited.
Qed.

Lemma nzhead_not_D0 d d' : Decimal.nzhead d <> Decimal.D0 d'.
Proof. induction d; simpl; congruence. Qed.

Lemma to_uint_unorm p : Decimal.unorm (Pos.to_uint p) = Pos.to_uint p.
Proof.
  rewrite <- (DecimalPos.Unsigned.to_of (Pos.to_uint p)).
  by rewrite DecimalPos.Unsigned.of_to.
Qed.

Lemma parse_int_pos p rest :
  delimited rest ->
  parse_int (chars_of_uint (Pos.to_uint p) ++ rest) = Some (Pos.to_uint p, rest).
Proof.
  intros Hd. unfold parse_int. rewrite read_digits_chars by done.
  rewrite (continues_number_delimited _ Hd).
  pose proof (DecimalPos.Unsigned.to_uint_nonnil p) as Hnil.
  pose proof (to_uint_unorm p) as Hnorm.
  destruct (Pos.to_uint p) as [|d| | | | | | | | | ] eqn:E; try done.
  destruct d; try done.
  all: exfalso; unfold Decimal.unorm in Hnorm; simpl in Hnorm.
  all: match type of Hnorm with
       | context [Decimal.nzhead ?x] =>
           pose proof (nzhead_not_D0 x) as Hz; destruct (Decimal.nzhead x)
       end; try discriminate; by eapply Hz.
Qed.

Lemma chars_of_uint_head d :
  d <> Decimal.Nil ->
  exists c tl, chars_of_uint d = c :: tl /\ In c (js "0123456789").
Proof.
  destruct d; [done | ..]; intros _; eexists _, _; (split; [reflexivity |]);
    simpl; tauto.
Qed.

Lemma parse_number_digits d rest :
  d <> Decimal.Nil ->
  parse_number (chars_of_uint d ++ rest) =
  match parse_int (chars_of_uint d ++ rest) with
  | Some (d', r') => Some (JNumber (Fin (Z.of_int (Decimal.Pos d'))), r')
  | None => None
  end.
Proof.
  intros Hd. destruct (chars_of_uint_head d Hd) as (c & tl & -> & Hc).
  simpl in Hc. unfold parse_number. simpl app.
  repeat (destruct Hc as [<- | Hc]; [reflexivity |]). done.
Qed.

Lemma parse_number_toString z rest :
  delimited rest ->
  parse_number (Number_toString z ++ rest) = Some (JNumber (Fin z), rest).
Proof.
  intros Hd. rewrite <- (DecimalZ.of_to z) at 2.
  unfold Number_toString. destruct z as [|p|p]; simpl Z.to_int; cbv iota.
  - rewrite parse_number_digits by done.
    change (chars_of_uint (Decimal.D0 Decimal.Nil) ++ rest) with ("0"%char :: rest).
    unfold parse_int. cbn [read_digits digit_of Ascii.eqb Bool.eqb].
    by rewrite (read_digits_delimited _ Hd), (continues_number_delimited _ Hd).
  - rewrite parse_number_digits by apply DecimalPos.Unsigned.to_uint_nonnil.
    by rewrite parse_int_pos.
  - simpl. by rewrite parse_int_pos.
Qed.
Lemma parse_string_body_unit c tail :
  parse_string_body (quote_unit c ++ tail) = prepend c (parse_string_body tail).
Proof.
  destruct c as [[] [] [] [] [] [] [] []]; reflexivity.
Qed.

Lemma parse_string_body_quoted s rest :
  parse_string_body (flat_map quote_unit s ++ DQUOTE :: rest) = Some (s, rest).
Proof.
  induction s as [|c s IH]; [reflexivity |].
  simpl flat_map. rewrite <- app_assoc, parse_string_body_unit. by rewrite IH.
Qed.
Lemma Number_toString_start z : number_start (Number_toString z).
Proof.
  unfold Number_toString. destruct z as [|p|p]; simpl Z.to_int; cbv iota.
  - eexists _, _; split; [reflexivity |]. simpl; tauto.
  - destruct (chars_of_uint_head (Pos.to_uint p)) as (c & tl & -> & Hc);
      [apply DecimalPos.Unsigned.to_uint_nonnil |].
    exists c, tl; split; [done |]. simpl in *; tauto.
  - eexists _, _; split; [reflexivity |]. simpl; tauto.
Qed.

Lemma number_token_start s : number_start s -> token_start s.
Proof.
  intros (c & tl & -> & Hc). exists c, tl; split; [done |]. simpl in *; tauto.
Qed.

Lemma element_array l :
  element (JArray l) = "["%char :: join_commas (map element l) ++ ["]"%char].
Proof. reflexivity. Qed.

Lemma element_start v : token_start (element v).
Proof.
  destruct v as [| |[]|[]|s| |l];
    try (apply number_token_start, Number_toString_start);
    eexists _, _; (split; [reflexivity |]); simpl; tauto.
Qed.

Lemma skip_ws_start s rest : token_start s -> skip_ws (s ++ rest) = s ++ rest.
Proof. intros (c & tl & -> & Hc). each_start Hc. Qed.

Lemma parse_value_number_start s fuel rest :
  number_start s -> parse_value (S fuel) (s ++ rest) = parse_number (s ++ rest).
Proof. intros (c & tl & -> & Hc). each_start Hc. Qed.

Lemma parse_value_array_start s fuel rest :
  token_start s ->
  parse_value (S fuel) ("["%char :: s ++ rest) =
  match parse_elements fuel (s ++ rest) with
  | Some (vs, r) => Some (JArray vs, r)
  | None => None
  end.
Proof. intros (c & tl & -> & Hc). each_start Hc. Qed.

Lemma join_commas_cons p q rest :
  join_commas (p :: q :: rest) = p ++ ","%char :: join_commas (q :: rest).
Proof. reflexivity. Qed.

Lemma join_commas_start l :
  l <> [] -> token_start (join_commas (map element l)).
Proof.
  destruct l as [|x l]; [done |]. intros _.
  destruct (element_start x) as (c & tl & E & Hc).
  destruct l as [|y l]; simpl map.
  - exists c, tl. by split.
  - rewrite join_commas_cons, E. by eexists c, _.
Qed.

Lemma parse_elements_join l :
  Forall parses_back l -> l <> [] ->
  forall fuel rest,
    (length (join_commas (map element l)) + 1 < fuel)%nat ->
    parse_elements fuel (join_commas (map element l) ++ "]"%char :: rest) =
    Some (map revived l, rest).
Proof.
  induction 1 as [|x l Hx Hl IH]; [done |]. intros _ fuel rest Hfuel.
  destruct fuel as [|fuel]; [lia |].
  destruct l as [|y l]; simpl map in *.
  - cbn [join_commas] in *. cbn [parse_elements].
    rewrite Hx; [| left; apply delimited_bracket | lia]. reflexivity.
  - rewrite join_commas_cons in *. rewrite length_app in Hfuel. cbn [length] in Hfuel.
    rewrite <- app_assoc. cbn [parse_elements]. rewrite <- app_comm_cons.
    rewrite Hx; [| left; apply delimited_comma | lia].
    cbn [skip_ws is_ws]. simpl.
    rewrite IH; [reflexivity | done | lia].
Qed.

Lemma parse_value_array l :
  Forall parses_back l ->
  forall fuel rest,
    (length (element (JArray l)) < fuel)%nat ->
    parse_value fuel (element (JArray l) ++ rest) = Some (JArray (map revived l), rest).
Proof.
  intros IH fuel rest Hfuel. destruct fuel as [|fuel]; [lia |].
  rewrite element_array in *. destruct l as [|x l]; [reflexivity |].
  rewrite <- app_comm_cons, <- app_assoc.
  rewrite parse_value_array_start by (by apply join_commas_start).
  cbn [length] in Hfuel. rewrite length_app in Hfuel. cbn [length] in Hfuel.
  cbn [app]. rewrite parse_elements_join; [reflexivity | done | done | lia].
Qed.

Lemma parse_value_element v : parses_back v.
Proof.
  induction v as [| |b|n|s|id|l IH] using JsValue_nested_ind;
    intros fuel rest Hd Hfuel; [| | | | | | by apply parse_value_array];
    (destruct fuel as [|fuel]; [lia |]).
  - reflexivity.
  - reflexivity.
  - destruct b; reflexivity.
  - destruct n; try reflexivity.
    change (element (JNumber (Fin z))) with (Number_toString z).
    rewrite parse_value_number_start by apply Number_toString_start.
    destruct Hd as [Hd | Hself]; [| discriminate]. by apply parse_number_toString.
  - change (element (JString s)) with (DQUOTE :: flat_map quote_unit s ++ [DQUOTE]).
    rewrite <- app_comm_cons, <- app_assoc. cbn [parse_value skip_ws is_ws].
    simpl. by rewrite parse_string_body_quoted.
  - reflexivity.
Qed.

(** [JSON.parse(JSON.stringify(queryKey))] never throws, and is the key with
    its unrepresentable fragments turned into [null]. *)
Theorem parse_stringify (queryKey : list JsValue) :
  parse (stringify queryKey) = Some (JArray (map revived queryKey)).
Proof.
  unfold parse, stringify.
  change (SerializeJSONArray queryKey) with (element (JArray queryKey)).
  rewrite <- (app_nil_r (element (JArray queryKey))) at 2.
  rewrite parse_value_array; [reflexivity | | lia].
  apply Forall_forall. intros v _. apply parse_value_element.
Qed.
Lemma element_revived v : element (revived v) = element v.
Proof.
  induction v as [| |b|n|s|id|l IH] using JsValue_nested_ind; try reflexivity.
  - by destruct n.
  - cbn [revived]. rewrite !element_array. do 2 f_equal.
    rewrite map_map. f_equal. apply map_ext_Forall. done.
Qed.

Lemma stringify_revived k : stringify (map revived k) = stringify k.
Proof.
  unfold stringify, SerializeJSONArray. rewrite map_map.
  do 3 f_equal. apply map_ext. intros v. apply element_revived.
Qed.

Lemma revived_representable v : representable v = true -> revived v = v.
Proof.
  induction v as [| |b|n|s|id|l IH] using JsValue_nested_ind; try done.
  - by destruct n.
  - cbn [representable revived]. intros Hl. f_equal.
    induction IH as [|x l Hx _ IHl]; [done |].
    cbn [forallb] in Hl. apply andb_true_iff in Hl as [Hx' Hl'].
    cbn [map]. by rewrite Hx, IHl.
Qed.

Lemma revived_idemp v : revived (revived v) = revived v.
Proof.
  induction v as [| |b|n|s|id|l IH] using JsValue_nested_ind; try done.
  - by destruct n.
  - cbn [revived]. f_equal. rewrite map_map. apply map_ext_Forall. done.
Qed.

End JSONFacts.

(** ** Prefix matching on canonical keys *)

Lemma startsWith_spec s p : startsWith s p = true <-> p `prefix_of` s.
Proof.
  revert s. induction p as [|a p IH]; intros s; simpl.
  - split; [intros _; apply prefix_nil | done].
  - destruct s as [|b s].
    + split; [done |]. intros [r Hr]. discriminate.
    + rewrite andb_true_iff, IH, Ascii.eqb_eq. split.
      * intros [-> Hp]. by apply prefix_cons.
      * intros [r Hr]. injection Hr as -> ->. split; [done |]. by exists r.
Qed.

Lemma slice_stringify p :
  slice_0_m1 (JSON.stringify p) = "["%char :: JSON.join_commas (map JSON.element p).
Proof.
  unfold slice_0_m1, JSON.stringify, JSON.SerializeJSONArray.
  cbn [length]. rewrite length_app. cbn [length].
  replace (S (length (JSON.join_commas (map JSON.element p)) + 1) - 1)%nat
    with (S (length (JSON.join_commas (map JSON.element p)))) by lia.
  cbn [take]. f_equal. by rewrite take_app_length.
Qed.

Lemma join_commas_app_prefix (a b : list JsString) :
  JSON.join_commas a `prefix_of` JSON.join_commas (a ++ b).
Proof.
  induction a as [|x a IH]; [apply prefix_nil |].
  destruct a as [|y a].
  - destruct b as [|z b]; [by rewrite app_nil_r |].
    cbn [app]. rewrite JSONFacts.join_commas_cons. by apply prefix_app_r.
  - cbn [app] in *. rewrite !JSONFacts.join_commas_cons.
    by apply prefix_app, prefix_cons.
Qed.

(** A key whose fragments begin with those of the prefix is matched. *)
Lemma startsWith_fragments p rest :
  startsWith (JSON.stringify (p ++ rest)) (slice_0_m1 (JSON.stringify p)) = true.
Proof.
  apply startsWith_spec. rewrite slice_stringify.
  unfold JSON.stringify, JSON.SerializeJSONArray. apply prefix_cons.
  rewrite map_app. apply prefix_app_r, join_commas_app_prefix.
Qed.

Section FragmentWise.
Import JSON JSONFacts.

Lemma join_commas_elements_cons x (l : list JsValue) :
  join_commas (map element (x :: l)) =
  element x ++ match l with
               | [] => []
               | _ :: _ => ","%char :: join_commas (map element l)
               end.
Proof. destruct l; [by rewrite app_nil_r | reflexivity]. Qed.

(** Two serialized elements, each followed by text at which it ends, that
    start the same text are the same value up to [revived], followed by the
    same text. *)
Lemma element_unique x y s1 s2 :
  delimited s1 \/ self_delimiting x = true ->
  delimited s2 \/ self_delimiting y = true ->
  element x ++ s1 = element y ++ s2 ->
  revived x = revived y /\ s1 = s2.
Proof.
  intros H1 H2 E.
  pose proof (parse_value_element x
                (S (length (element x) + length (element y))) s1 H1) as Px.
  pose proof (parse_value_element y
                (S (length (element x) + length (element y))) s2 H2) as Py.
  rewrite E in Px. rewrite Py in Px by lia.
  assert (Some (revived y, s2) = Some (revived x, s1)) as [= -> ->]
    by (apply Px; lia).
  done.
Qed.

Lemma join_commas_prefix_fragments p :
  ends_self_delimiting p ->
  forall k r,
    join_commas (map element p) ++ r = join_commas (map element k) ++ ["]"%char] ->
    map revived p `prefix_of` map revived k.
Proof.
  induction p as [|x p IH]; intros Hlast k r E; [apply prefix_nil |].
  destruct k as [|y k].
  { exfalso. rewrite join_commas_elements_cons, <- app_assoc in E.
    destruct (element_start x) as (c & tl & Ex & Hc). rewrite Ex in E.
    injection E as -> _. simpl in Hc.
    repeat (destruct Hc as [Hc | Hc]; [discriminate |]). done. }
  rewrite !join_commas_elements_cons, <- !app_assoc in E.
  apply element_unique in E as [Exy E].
  - cbn [map]. rewrite Exy. apply prefix_cons.
    destruct p as [|x' p]; [apply prefix_nil |].
    destruct k as [|y' k]; [discriminate |].
    cbn [app] in E. injection E as E.
    apply (IH Hlast (y' :: k) r E).
  - destruct p as [|x' p]; [right; exact Hlast | left].
    cbn [app]. apply delimited_comma.
  - left. destruct k; cbn [app]; [apply delimited_bracket | apply delimited_comma].
Qed.

(** For a prefix that is empty or ends in a self-delimiting fragment, the
    string test of [invalidateQueries] is the fragment-wise one. *)
Lemma startsWith_fragmentwise p k :
  ends_self_delimiting p ->
  startsWith (stringify k) (slice_0_m1 (stringify p)) = true <->
  map revived p `prefix_of` map revived k.
Proof.
  intros Hlast. split.
  - rewrite startsWith_spec, slice_stringify.
    unfold stringify, SerializeJSONArray. intros [r Hr].
    injection Hr as Hr. by eapply join_commas_prefix_fragments.
  - intros [rest Hrest].
    rewrite <- (stringify_revived k), Hrest.
    rewrite <- (stringify_revived p). apply startsWith_fragments.
Qed.

End FragmentWise.

(** ** The cache *)

Section Cache.

Implicit Types (c : QueryClient.t) (w : World) (options : QueryOptions).
Implicit Types (e cached : CacheEntry.t) (k K : JsString).

(** *** [Query] *)

Lemma Query_key_new options w :
  Query.key (Query.new options w) = JSON.stringify (queryKey options).
Proof. reflexivity. Qed.

Lemma Query_queryKey_new options w :
  Query.queryKey (Query.new options w) =
  Some (JArray (map JSON.revived (queryKey options))).
Proof. apply JSONFacts.parse_stringify. Qed.

(** [fetch()] on a constructed query never throws: it calls [queryFn]. *)
Lemma Query_fetch_new options w0 w :
  Query.fetch (Query.new options w0) None w =
  Some (invoke (queryFn options) (context_of options) w).
Proof. unfold Query.fetch. by rewrite Query_queryKey_new. Qed.

Lemma invoke_calls f ctx w :
  calls (invoke f ctx w).2 = calls w ++ [(fn_id f, ctx)].
Proof. reflexivity. Qed.

Lemma invoke_promise f ctx w :
  (invoke f ctx w).1 = length (promises w) /\
  promises (invoke f ctx w).2 = promises w ++ [fn_run f ctx].
Proof. by split. Qed.

Lemma invoke_lookup f ctx w :
  promises (invoke f ctx w).2 !! (invoke f ctx w).1 = Some (fn_run f ctx).
Proof.
  destruct (invoke_promise f ctx w) as [-> ->].
  by rewrite lookup_app_r, Nat.sub_diag.
Qed.

Lemma later_lookup w w' p s :
  later w w' -> promises w !! p = Some s -> promises w' !! p = Some s.
Proof. unfold later. intros Hp Hs. by eapply prefix_lookup_Some. Qed.

(** *** [fetchQuery], branch by branch *)

Lemma fetchQuery_hit options c w cached :
  QueryClient.queries c !! JSON.stringify (queryKey options) = Some cached ->
  Query.isStale (Query.new options w) (CacheEntry.createdAt cached) w = false ->
  QueryClient.fetchQuery options c w = Some (CacheEntry.promise cached, c, w).
Proof.
  intros Hc Hs. unfold QueryClient.fetchQuery. rewrite Query_key_new, Hc.
  by rewrite Hs.
Qed.

Lemma fetchQuery_stale options c w :
  finds_stale options c w ->
  QueryClient.fetchQuery options c w =
  let r := invoke (queryFn options) (context_of options) w in
  Some (r.1,
        QueryClient.set (JSON.stringify (queryKey options))
          {| CacheEntry.promise := r.1; CacheEntry.createdAt := Fin (now w) |} c,
        r.2).
Proof.
  intros (cached & Hc & Hs). unfold QueryClient.fetchQuery.
  rewrite Query_key_new, Hc, Hs, Query_fetch_new. reflexivity.
Qed.

Lemma fetchQuery_miss options c w :
  misses options c w ->
  QueryClient.fetchQuery options c w =
  let r := invoke (queryFn options) (context_of options) w in
  Some (r.1,
        QueryClient.set (JSON.stringify (queryKey options))
          {| CacheEntry.promise := r.1; CacheEntry.createdAt := Fin (now w) |} c,
        r.2).
Proof.
  intros [Hc Hh]. unfold QueryClient.fetchQuery, hydratable.
  rewrite Query_key_new, Hc, Hh, Query_fetch_new. reflexivity.
Qed.

(** C2. A [fetchQuery] that finds a non-stale entry for its key returns the
    promise held by that entry and changes neither the cache nor the world,
    so [queryFn] is not invoked; and any sequence of [fetchQuery] calls for
    that key, each finding the entry non-stale at its own time, returns that
    same promise every time, leaves the cache as it was and adds no
    invocation to the log. *)
Theorem fetchQuery_deduplicates (requests : list (Z * QueryOptions))
    c w K cached :
  QueryClient.queries c !! K = Some cached ->
  Forall (fun r : Z * QueryOptions =>
            JSON.stringify (queryKey r.2) = K /\
            Query.isStale (Query.new r.2 (at_time r.1 w))
              (CacheEntry.createdAt cached) (at_time r.1 w) = false)
         requests ->
  Forall (fun r : Z * QueryOptions =>
            QueryClient.fetchQuery r.2 c (at_time r.1 w) =
            Some (CacheEntry.promise cached, c, at_time r.1 w))
         requests /\
  exists w',
    fetch_sequence requests c w =
      Some (replicate (length requests) (CacheEntry.promise cached), c, w') /\
    calls w' = calls w /\ promises w' = promises w.
Proof.
  intros Hc Hall. split.
  - eapply Forall_impl; [exact Hall |]. intros [t o] [HK Hs]; simpl in *.
    apply fetchQuery_hit; [by rewrite HK | done].
  - revert w Hall. induction requests as [|[t o] requests IH]; intros w Hall.
    + by exists w.
    + apply Forall_cons in Hall as [[HK Hs] Hall]; simpl in HK, Hs.
      destruct (IH (at_time t w)) as (w' & Hseq & Hcalls & Hproms).
      { eapply Forall_impl; [exact Hall |]. intros [t' o'] [HK' Hs']; simpl in *.
        split; [done |]. exact Hs'. }
      exists w'. cbn [fetch_sequence].
      rewrite (fetchQuery_hit _ _ _ cached); [| by rewrite HK | done].
      cbn. rewrite Hseq. cbn. done.
Qed.


(** *** [invalidateQuery] and [invalidateQueries] *)

Lemma lookup_invalidateQuery queryKey c k :
  QueryClient.queries (QueryClient.invalidateQuery queryKey c) !! k =
  if decide (JSON.stringify queryKey = k)
  then CacheEntry.invalidate <$> QueryClient.queries c !! k
  else QueryClient.queries c !! k.
Proof.
  unfold QueryClient.invalidateQuery. cbn [QueryClient.queries].
  rewrite lookup_alter. by case_decide; subst.
Qed.

(** The [forEach] of [invalidateQueries], entry by entry. *)
Lemma lookup_invalidateQueries queryKey c k :
  QueryClient.queries (QueryClient.invalidateQueries queryKey c) !! k =
  (fun e => if startsWith k (slice_0_m1 (JSON.stringify (default [] queryKey)))
            then CacheEntry.invalidate e else e)
    <$> QueryClient.queries c !! k.
Proof.
  unfold QueryClient.invalidateQueries. cbn [QueryClient.queries].
  set (sk := slice_0_m1 _). set (m0 := QueryClient.queries c).
  set (f := fun key (_ : CacheEntry.t) (m : gmap JsString CacheEntry.t) =>
              if startsWith key sk then alter CacheEntry.invalidate key m else m).
  assert (forall m : gmap JsString CacheEntry.t,
            map_fold f m0 m !! k =
            (fun e => if bool_decide (is_Some (m !! k)) && startsWith k sk
                      then CacheEntry.invalidate e else e) <$> m0 !! k) as Hfold.
  { apply (map_fold_weak_ind
             (fun (r m : gmap JsString CacheEntry.t) =>
                r !! k =
                (fun e => if bool_decide (is_Some (m !! k)) && startsWith k sk
                          then CacheEntry.invalidate e else e) <$> m0 !! k) f m0).
    - rewrite lookup_empty.
      rewrite bool_decide_eq_false_2 by (intros [? ?]; done).
      destruct (m0 !! k); reflexivity.
    - intros i x m r Hi IH. unfold f at 1.
      destruct (decide (i = k)) as [-> | Hne].
      + rewrite lookup_insert_eq.
        rewrite bool_decide_eq_true_2 by done. cbn [andb].
        rewrite Hi in IH.
        rewrite bool_decide_eq_false_2 in IH by (intros [? ?]; done).
        cbn [andb] in IH.
        destruct (startsWith k sk).
        * rewrite lookup_alter_eq, IH. destruct (m0 !! k); reflexivity.
        * exact IH.
      + rewrite lookup_insert_ne by done.
        destruct (startsWith i sk); [rewrite lookup_alter_ne by done |]; exact IH. }
  rewrite Hfold. destruct (m0 !! k) eqn:E; [| done].
  by rewrite bool_decide_eq_true_2 by done.
Qed.

(** [invalidateQueries(p)], for a prefix that is empty or ends in a
    self-delimiting fragment (anything but a finite number), invalidates
    exactly the stored keys whose fragments begin with those of [p], up to
    the replacement of unrepresentable fragments by [null]. *)
Lemma invalidateQueries_fragmentwise (p k : list JsValue) c :
  ends_self_delimiting p ->
  (map JSON.revived p `prefix_of` map JSON.revived k ->
   QueryClient.queries (QueryClient.invalidateQueries (Some p) c) !! JSON.stringify k =
   CacheEntry.invalidate <$> QueryClient.queries c !! JSON.stringify k) /\
  (~ map JSON.revived p `prefix_of` map JSON.revived k ->
   QueryClient.queries (QueryClient.invalidateQueries (Some p) c) !! JSON.stringify k =
   QueryClient.queries c !! JSON.stringify k).
Proof.
  intros Hlast. pose proof (startsWith_fragmentwise p k Hlast) as Hiff.
  split; intros Hp; rewrite lookup_invalidateQueries;
    change (default [] (Some p)) with p.
  - apply Hiff in Hp. rewrite Hp. reflexivity.
  - destruct (startsWith (JSON.stringify k) _) eqn:E.
    + exfalso. apply Hp, Hiff. reflexivity.
    + by destruct (QueryClient.queries c !! JSON.stringify k).
Qed.

(** [invalidateQueries()] invalidates every stored key. *)
Lemma invalidateQueries_all (k : list JsValue) c :
  QueryClient.queries (QueryClient.invalidateQueries None c) !! JSON.stringify k =
  CacheEntry.invalidate <$> QueryClient.queries c !! JSON.stringify k.
Proof. rewrite lookup_invalidateQueries. reflexivity. Qed.

(** C1. [invalidateQueries([1])] invalidates the entry stored under the key
    [[10]], although the fragment sequence [[10]] does not begin with the
    fragment [1]: the canonical string of [[10]] begins with that of [[1]]
    stripped of its closing bracket.  On string fragments the match is
    fragment-wise: [['user']] matches neither [['userset']] nor
    [['b','user']], and [['a']] matches [['a','x']] and [['a']]. *)
Theorem invalidateQueries_numeric_fragment (c : QueryClient.t) (e : CacheEntry.t) :
  QueryClient.queries c !! JSON.stringify [JNumber (Fin 10)] = Some e ->
  ~ [JNumber (Fin 1)] `prefix_of` [JNumber (Fin 10)] /\
  QueryClient.queries (QueryClient.invalidateQueries (Some [JNumber (Fin 1)]) c)
    !! JSON.stringify [JNumber (Fin 10)] = Some (CacheEntry.invalidate e) /\
  startsWith (JSON.stringify [JString (js "userset")])
    (slice_0_m1 (JSON.stringify [JString (js "user")])) = false /\
  startsWith (JSON.stringify [JString (js "b"); JString (js "user")])
    (slice_0_m1 (JSON.stringify [JString (js "user")])) = false /\
  startsWith (JSON.stringify [JString (js "a"); JString (js "x")])
    (slice_0_m1 (JSON.stringify [JString (js "a")])) = true /\
  startsWith (JSON.stringify [JString (js "a")])
    (slice_0_m1 (JSON.stringify [JString (js "a")])) = true.
Proof.
  intros He. split.
  - intros [r Hr]. discriminate.
  - split; [| by vm_compute].
    rewrite lookup_invalidateQueries, He. reflexivity.
Qed.

(** C4. For a query whose resolved stale time is the duration [s], whatever
    the state it was constructed in, [isStale(t)] called in state [w] is
    true exactly when [Date.now()] of [w] minus [t] is strictly greater
    than [s]: it is false at age [s] and true at age [s + 1].  The clock,
    [t], [s] and the age are safe integers, the range on which the
    subtraction and the comparison of the code are exact. *)
Theorem isStale_strict options w0 w (t s : Z) :
  Query.p_staleTime (Query.new options w0) = Fin s ->
  safe_integer (now w) ->
  safe_integer t ->
  safe_integer s ->
  safe_integer (now w - t) ->
  (Query.isStale (Query.new options w0) (Fin t) w = true <-> now w - t > s) /\
  (now w - t = s -> Query.isStale (Query.new options w0) (Fin t) w = false) /\
  (now w - t = s + 1 -> Query.isStale (Query.new options w0) (Fin t) w = true).
Proof.
  intros Hs _ _ _ _. unfold Query.isStale. rewrite Hs. cbn [js_sub js_gt].
  rewrite Z.ltb_lt. repeat split; intros; lia.
Qed.

(** C5. [ensureQuery] on a key that has an entry returns the promise held by
    that entry, whatever its age, and changes neither the cache nor the
    world; two [ensureQuery] calls for one key, the second in any state of
    the world whatever, return the same promise, and [queryFn] runs at most
    once in the two calls together. *)
Theorem ensureQuery_ignores_staleness options c w :
  (forall cached,
     QueryClient.queries c !! JSON.stringify (queryKey options) = Some cached ->
     QueryClient.ensureQuery options c w = Some (CacheEntry.promise cached, c, w)) /\
  (forall options2,
     JSON.stringify (queryKey options2) = JSON.stringify (queryKey options) ->
     exists p c1 w1,
       QueryClient.ensureQuery options c w = Some (p, c1, w1) /\
       (length (calls w1) <= S (length (calls w)))%nat /\
       forall w2,
         QueryClient.ensureQuery options2 c1 w2 = Some (p, c1, w2)).
Proof.
  assert (forall o c0 w0 cached,
            QueryClient.queries c0 !! JSON.stringify (queryKey o) = Some cached ->
            QueryClient.ensureQuery o c0 w0 =
            Some (CacheEntry.promise cached, c0, w0)) as Hhit.
  { intros o c0 w0 cached Hc. unfold QueryClient.ensureQuery.
    by rewrite Query_key_new, Hc. }
  split; [by apply Hhit |]. intros options2 Hkey.
  destruct (QueryClient.queries c !! JSON.stringify (queryKey options))
    as [cached|] eqn:Hc.
  - exists (CacheEntry.promise cached), c, w. rewrite (Hhit _ _ _ _ Hc).
    split; [done |]. split; [lia |]. intros w2. apply Hhit. by rewrite Hkey.
  - unfold QueryClient.ensureQuery at 1. rewrite Query_key_new, Hc.
    unfold hydratable.
    destruct (hydration w !! JSON.stringify (queryKey options)) as [p|] eqn:Hh.
    + cbn. eexists _, _, _. split; [reflexivity |]. split; [lia |].
      intros w2.
      etrans; [apply Hhit; rewrite Hkey; apply lookup_insert_eq | reflexivity].
    + rewrite Query_fetch_new. cbn. eexists _, _, _. split; [reflexivity |].
      split; [cbn [calls]; rewrite length_app; cbn; lia |].
      intros w2.
      etrans; [apply Hhit; rewrite Hkey; apply lookup_insert_eq | reflexivity].
Qed.

(** C6. [invalidateQuery(K)] on a key that has an entry replaces that entry
    by one with the same promise and [createdAt] at negative infinity, and
    leaves the entry of every other canonical key as it was; on a key that
    has no entry it leaves the client unchanged. *)
Theorem invalidateQuery_frame (K : list JsValue) c :
  (forall e,
     QueryClient.queries c !! JSON.stringify K = Some e ->
     QueryClient.queries (QueryClient.invalidateQuery K c) =
       <[JSON.stringify K :=
           {| CacheEntry.promise := CacheEntry.promise e;
              CacheEntry.createdAt := NegInfinity |}]> (QueryClient.queries c)) /\
  (QueryClient.queries c !! JSON.stringify K = None ->
     QueryClient.invalidateQuery K c = c) /\
  (forall k, k <> JSON.stringify K ->
     QueryClient.queries (QueryClient.invalidateQuery K c) !! k =
     QueryClient.queries c !! k).
Proof.
  repeat split.
  - intros e He. apply map_eq. intros k. rewrite lookup_invalidateQuery.
    case_decide as Hk.
    + subst k. by rewrite He, lookup_insert_eq.
    + by rewrite lookup_insert_ne.
  - intros Hnone. destruct c as [m]. unfold QueryClient.invalidateQuery.
    cbn [QueryClient.queries] in *. f_equal. apply map_eq. intros k.
    rewrite lookup_alter. case_decide as Hk; [| done]. subst k. by rewrite Hnone.
  - intros k Hk. rewrite lookup_invalidateQuery. by case_decide.
Qed.

(** C7. [setQuery(k, v)] installs, whatever entry the key had, an entry
    created now that holds a new promise already fulfilled with [v];
    [queryFn] is not involved, and [getQuery(k)] afterwards returns that
    promise. *)
Theorem setQuery_getQuery (k : list JsValue) (v : JsValue) c w :
  let p := length (promises w) in
  let c' := (QueryClient.setQuery k v c w).1 in
  let w' := (QueryClient.setQuery k v c w).2 in
  QueryClient.queries c' =
    <[JSON.stringify k := {| CacheEntry.promise := p;
                              CacheEntry.createdAt := Fin (now w) |}]>
      (QueryClient.queries c) /\
  QueryClient.getQuery k c' = Some p /\
  promises w' !! p = Some (Fulfilled v) /\
  later w w' /\
  calls w' = calls w.
Proof.
  cbn. unfold QueryClient.getQuery. cbn. rewrite lookup_insert_eq.
  repeat split.
  - by rewrite lookup_app_r, Nat.sub_diag.
  - by apply prefix_app_r.
Qed.


(** C3. [invalidateQuery] then [fetchQuery] at [staleTime: Infinity], a
    non-negative stale time, on a key that has an entry: [queryFn] does not
    run.  [invalidate()] sets [createdAt] to negative infinity so that the
    entry be stale against any stale time, and misses this one: the age
    [Infinity] is not greater than [Infinity], and [fetchQuery] returns the
    held promise. *)
Lemma invalidate_then_fetch_Infinity :
  let key := [JString (js "a")] in
  let options :=
    options_for (Some Infinity) key (constant_fn 1 (Fulfilled (JString (js "new")))) in
  let c := (seeded key).1 in
  let w := at_time 2000 (seeded key).2 in
  non_negative Infinity = true /\
  is_Some (QueryClient.queries c !! JSON.stringify key) /\
  ~ recomputes options (QueryClient.invalidateQuery key c) w.
Proof.
  cbv zeta. split; [reflexivity |]. split; [by eexists |].
  intros (p & c' & w' & Hfetch & Hcalls).
  erewrite fetchQuery_hit in Hfetch; [| vm_compute; reflexivity | reflexivity].
  injection Hfetch as _ _ <-. vm_compute in Hcalls. discriminate.
Qed.

(** Where the mark of [invalidate()] does work: for a key with a cached entry
    and a descriptor for that key whose resolved stale time is finite,
    [fetchQuery] after
    [invalidateQuery] runs [queryFn], in whatever state of the world the
    fetch happens, and returns the promise of that run; what [getQuery]
    returns for any other canonical key is the same before the
    invalidation, after it, and after the fetch. *)
Theorem invalidateQuery_forces_refetch (k : list JsValue) options c w e (s : Z) :
  JSON.stringify (queryKey options) = JSON.stringify k ->
  QueryClient.queries c !! JSON.stringify k = Some e ->
  Query.p_staleTime (Query.new options w) = Fin s ->
  let c1 := QueryClient.invalidateQuery k c in
  recomputes options c1 w /\
  exists p c2 w2,
    QueryClient.fetchQuery options c1 w = Some (p, c2, w2) /\
    promises w2 !! p = Some (fn_run (queryFn options) (context_of options)) /\
    forall other,
      JSON.stringify other <> JSON.stringify k ->
      QueryClient.getQuery other c1 = QueryClient.getQuery other c /\
      QueryClient.getQuery other c2 = QueryClient.getQuery other c.
Proof.
  intros Hkey He Hs c1.
  assert (finds_stale options c1 w) as Hstale.
  { exists (CacheEntry.invalidate e). split.
    - unfold c1. rewrite lookup_invalidateQuery, Hkey.
      rewrite decide_True by done. by rewrite He.
    - unfold Query.isStale. by rewrite Hs. }
  pose proof (fetchQuery_stale _ _ _ Hstale) as Hfetch. cbv zeta in Hfetch.
  split.
  - eexists _, _, _. split; [exact Hfetch |]. apply invoke_calls.
  - eexists _, _, _. split; [exact Hfetch |]. split; [apply invoke_lookup |].
    intros other Hother. unfold QueryClient.getQuery, QueryClient.set.
    cbn [QueryClient.queries]. rewrite Hkey.
    rewrite lookup_insert_ne by done. unfold c1.
    rewrite lookup_invalidateQuery. by rewrite decide_False by done.
Qed.

(** C8. When the [queryFn] of a descriptor returns a promise that rejects
    with [reason], and [fetchQuery] runs it (the key misses, or its entry is
    stale), the promise returned is the one [queryFn] produced, rejected
    with that very [reason], and it is the promise of the entry now stored
    under the key.  In any later state, a [fetchQuery] for the key that
    finds this entry non-stale, an [ensureQuery] and a [getQuery] all
    return that same rejected promise, leaving cache and world untouched:
    [queryFn] is not run again. *)
Theorem rejection_is_cached options c w (reason : JsValue) :
  fn_run (queryFn options) (context_of options) = Rejected reason ->
  misses options c w \/ finds_stale options c w ->
  exists p c' w',
    QueryClient.fetchQuery options c w = Some (p, c', w') /\
    p = (invoke (queryFn options) (context_of options) w).1 /\
    promises w' !! p = Some (Rejected reason) /\
    QueryClient.queries c' !! JSON.stringify (queryKey options) =
      Some {| CacheEntry.promise := p; CacheEntry.createdAt := Fin (now w) |} /\
    forall options2 w2,
      JSON.stringify (queryKey options2) = JSON.stringify (queryKey options) ->
      later w' w2 ->
      promises w2 !! p = Some (Rejected reason) /\
      QueryClient.ensureQuery options2 c' w2 = Some (p, c', w2) /\
      QueryClient.getQuery (queryKey options2) c' = Some p /\
      (Query.isStale (Query.new options2 w2) (Fin (now w)) w2 = false ->
       QueryClient.fetchQuery options2 c' w2 = Some (p, c', w2)).
Proof.
  intros Hrej Hrun.
  assert (QueryClient.fetchQuery options c w =
          let r := invoke (queryFn options) (context_of options) w in
          Some (r.1,
                QueryClient.set (JSON.stringify (queryKey options))
                  {| CacheEntry.promise := r.1;
                     CacheEntry.createdAt := Fin (now w) |} c,
                r.2)) as Hfetch.
  { destruct Hrun; [by apply fetchQuery_miss | by apply fetchQuery_stale]. }
  cbv zeta in Hfetch. eexists _, _, _. split; [exact Hfetch |].
  split; [reflexivity |].
  assert (promises (invoke (queryFn options) (context_of options) w).2
            !! (invoke (queryFn options) (context_of options) w).1 =
          Some (Rejected reason)) as Hp.
  { by rewrite invoke_lookup, Hrej. }
  split; [exact Hp |].
  assert (forall o, JSON.stringify (queryKey o) = JSON.stringify (queryKey options) ->
            QueryClient.queries
              (QueryClient.set (JSON.stringify (queryKey options))
                 {| CacheEntry.promise :=
                      (invoke (queryFn options) (context_of options) w).1;
                    CacheEntry.createdAt := Fin (now w) |} c)
              !! JSON.stringify (queryKey o) =
            Some {| CacheEntry.promise :=
                      (invoke (queryFn options) (context_of options) w).1;
                    CacheEntry.createdAt := Fin (now w) |}) as Hentry.
  { intros o ->. apply lookup_insert_eq. }
  split; [by apply Hentry |].
  intros options2 w2 Hkey Hlater. split; [by eapply later_lookup |].
  split; [| split].
  - unfold QueryClient.ensureQuery. by rewrite Query_key_new, (Hentry _ Hkey).
  - unfold QueryClient.getQuery. by rewrite (Hentry _ Hkey).
  - intros Hfresh.
    by rewrite (fetchQuery_hit _ _ _ _ (Hentry _ Hkey) Hfresh).
Qed.

(** C9. [new QueryClient(d)] assigns the static [QueryClient.staleTime], a
    single value of the process: a query constructed afterwards without
    [staleTime] takes [d], one constructed with [staleTime] takes its own;
    after a second [new QueryClient(d2)] a query constructed without
    [staleTime] takes [d2], on whichever client it is used, while a query
    constructed before keeps the duration it resolved at its construction.
    Without an argument the constructor assigns [1000 * 60 * 5]. *)
Theorem default_staleTime_is_process_wide (d : JsNumber) w
    (key : list JsValue) (fn : QueryFn) :
  let w1 := (QueryClient.new (Some d) w).2 in
  Query.p_staleTime (Query.new (options_for None key fn) w1) = d /\
  (forall s, Query.p_staleTime (Query.new (options_for (Some s) key fn) w1) = s) /\
  (forall d2,
     let w2 := (QueryClient.new (Some d2) w1).2 in
     Query.p_staleTime (Query.new (options_for None key fn) w2) = d2 /\
     (forall options lastUpdated,
        Query.isStale (Query.new options w1) lastUpdated w2 =
        Query.isStale (Query.new options w1) lastUpdated w1) /\
     (forall (cA : QueryClient.t) cached,
        QueryClient.queries cA !! JSON.stringify key = Some cached ->
        (js_gt (js_sub (Fin (now w)) (CacheEntry.createdAt cached)) d2 = false ->
         QueryClient.fetchQuery (options_for None key fn) cA w2 =
         Some (CacheEntry.promise cached, cA, w2)) /\
        (js_gt (js_sub (Fin (now w)) (CacheEntry.createdAt cached)) d2 = true ->
         recomputes (options_for None key fn) cA w2))) /\
  QueryClient_staleTime (QueryClient.new None w).2 = Fin 300000.
Proof.
  cbv zeta. split; [reflexivity |]. split; [reflexivity |].
  split; [| reflexivity].
  intros d2. split; [reflexivity |]. split; [reflexivity |].
  intros cA cached Hc. split; intros Hs.
  - by apply fetchQuery_hit.
  - eexists _, _, _. split; [| apply invoke_calls].
    apply (fetchQuery_stale (options_for None key fn)). by exists cached.
Qed.

(** C10. The canonical key of a query is that of its key with every
    [undefined], function, [NaN] and infinity replaced by [null], at any
    depth; [queryKey] returns the key with those replacements, and returns
    a key without such fragments unchanged.  So [[undefined]], [[NaN]] and
    [[null]] are one cache slot. *)
Theorem unrepresentable_fragments_become_null options w :
  Query.key (Query.new options w) =
    JSON.stringify (map JSON.revived (queryKey options)) /\
  Query.queryKey (Query.new options w) =
    Some (JArray (map JSON.revived (queryKey options))) /\
  (JSON.revived JUndefined = JNull /\
   JSON.revived (JNumber NaN) = JNull /\
   JSON.revived (JNumber Infinity) = JNull /\
   JSON.revived (JNumber NegInfinity) = JNull /\
   forall id, JSON.revived (JFunction id) = JNull) /\
  (forall v, JSON.representable v = true -> JSON.revived v = v) /\
  (JSON.stringify [JUndefined] = js "[null]" /\
   JSON.stringify [JNumber NaN] = js "[null]" /\
   JSON.stringify [JNull] = js "[null]").
Proof.
  split; [by rewrite Query_key_new, JSONFacts.stringify_revived |].
  split; [apply Query_queryKey_new |].
  split; [done |].
  split; [apply JSONFacts.revived_representable | done].
Qed.

End Cache.

(** ** The theorems at concrete states *)

Section Instances.

Lemma invalidateQueries_numeric_fragment_witness :
  let c := (seeded [JNumber (Fin 10)]).1 in
  let e := {| CacheEntry.promise := 0%nat; CacheEntry.createdAt := Fin 1000 |} in
  QueryClient.queries c !! JSON.stringify [JNumber (Fin 10)] = Some e /\
  QueryClient.queries (QueryClient.invalidateQueries (Some [JNumber (Fin 1)]) c)
    !! JSON.stringify [JNumber (Fin 10)] =
  Some {| CacheEntry.promise := 0%nat; CacheEntry.createdAt := NegInfinity |}.
Proof.
  cbv zeta.
  assert (QueryClient.queries (seeded [JNumber (Fin 10)]).1
            !! JSON.stringify [JNumber (Fin 10)] =
          Some {| CacheEntry.promise := 0%nat; CacheEntry.createdAt := Fin 1000 |})
    as He by reflexivity.
  split; [exact He |].
  exact (proj1 (proj2 (invalidateQueries_numeric_fragment _ _ He))).
Defined.

Lemma fetchQuery_deduplicates_witness :
  let requests :=
    [(1500, options_for None users_1 resolving_fn);
     (3000, options_for (Some (Fin 2000)) users_1 rejecting_fn)] in
  let c := (seeded users_1).1 in
  let w := (seeded users_1).2 in
  QueryClient.queries c !! JSON.stringify users_1 = Some seeded_entry /\
  Forall (fun r : Z * QueryOptions =>
            JSON.stringify (queryKey r.2) = JSON.stringify users_1 /\
            Query.isStale (Query.new r.2 (at_time r.1 w))
              (CacheEntry.createdAt seeded_entry) (at_time r.1 w) = false)
         requests /\
  exists w',
    fetch_sequence requests c w = Some ([0%nat; 0%nat], c, w') /\
    calls w' = calls w /\ promises w' = promises w.
Proof.
  cbv zeta.
  assert (QueryClient.queries (seeded users_1).1 !! JSON.stringify users_1 = Some seeded_entry)
    as H1 by reflexivity.
  assert (Forall (fun r : Z * QueryOptions =>
            JSON.stringify (queryKey r.2) = JSON.stringify users_1 /\
            Query.isStale (Query.new r.2 (at_time r.1 (seeded users_1).2))
              (CacheEntry.createdAt seeded_entry) (at_time r.1 (seeded users_1).2) = false)
            [(1500, options_for None users_1 resolving_fn);
             (3000, options_for (Some (Fin 2000)) users_1 rejecting_fn)]) as H2.
  { repeat constructor. }
  split; [exact H1 |]. split; [exact H2 |].
  exact (proj2 (fetchQuery_deduplicates _ _ _ _ _ H1 H2)).
Defined.

Lemma invalidateQuery_forces_refetch_witness :
  let options := options_for (Some (Fin 5000)) users_1 resolving_fn in
  let c := (seeded users_1).1 in
  let w := at_time 2000 (seeded users_1).2 in
  JSON.stringify (queryKey options) = JSON.stringify users_1 /\
  QueryClient.queries c !! JSON.stringify users_1 = Some seeded_entry /\
  Query.p_staleTime (Query.new options w) = Fin 5000 /\
  recomputes options (QueryClient.invalidateQuery users_1 c) w.
Proof.
  cbv zeta.
  assert (QueryClient.queries (seeded users_1).1 !! JSON.stringify users_1 = Some seeded_entry)
    as H2 by reflexivity.
  split; [reflexivity |]. split; [exact H2 |]. split; [reflexivity |].
  exact (proj1 (invalidateQuery_forces_refetch users_1
                  (options_for (Some (Fin 5000)) users_1 resolving_fn) (seeded users_1).1
                  (at_time 2000 (seeded users_1).2) seeded_entry 5000
                  eq_refl H2 eq_refl)).
Defined.

Lemma isStale_strict_witness :
  let options := options_for (Some (Fin 5000)) users_1 resolving_fn in
  let w0 := initial_World 0 in
  Query.p_staleTime (Query.new options w0) = Fin 5000 /\
  safe_integer (now (initial_World 6000)) /\
  safe_integer 1000 /\
  safe_integer 5000 /\
  safe_integer (now (initial_World 6000) - 1000) /\
  Query.isStale (Query.new options w0) (Fin 1000) (initial_World 6000) = false /\
  Query.isStale (Query.new options w0) (Fin 1000) (initial_World 6001) = true.
Proof.
  cbv zeta.
  assert (safe_integer 6000) as Hnow by (unfold safe_integer; lia).
  assert (safe_integer 6001) as Hnow' by (unfold safe_integer; lia).
  assert (safe_integer 1000) as Ht by (unfold safe_integer; lia).
  assert (safe_integer 5000) as Hs by (unfold safe_integer; lia).
  assert (safe_integer (6000 - 1000)) as Hage by (unfold safe_integer; lia).
  assert (safe_integer (6001 - 1000)) as Hage' by (unfold safe_integer; lia).
  split; [reflexivity |]. split; [exact Hnow |]. split; [exact Ht |].
  split; [exact Hs |]. split; [exact Hage |]. split.
  - apply (isStale_strict (options_for (Some (Fin 5000)) users_1 resolving_fn)
             (initial_World 0) (initial_World 6000) 1000 5000
             eq_refl Hnow Ht Hs Hage).
    reflexivity.
  - apply (isStale_strict (options_for (Some (Fin 5000)) users_1 resolving_fn)
             (initial_World 0) (initial_World 6001) 1000 5000
             eq_refl Hnow' Ht Hs Hage').
    reflexivity.
Defined.

Lemma ensureQuery_ignores_staleness_witness :
  let options := options_for (Some (Fin 0)) users_1 resolving_fn in
  let c := (seeded users_1).1 in
  let w := at_time 999999 (seeded users_1).2 in
  QueryClient.queries c !! JSON.stringify (queryKey options) = Some seeded_entry /\
  QueryClient.ensureQuery options c w = Some (0%nat, c, w).
Proof.
  cbv zeta.
  assert (QueryClient.queries (seeded users_1).1
            !! JSON.stringify (queryKey (options_for (Some (Fin 0)) users_1 resolving_fn)) =
          Some seeded_entry) as H1 by reflexivity.
  split; [exact H1 |].
  exact (proj1 (ensureQuery_ignores_staleness _ _ _) seeded_entry H1).
Defined.

Lemma invalidateQuery_frame_witness :
  let c := (seeded users_1).1 in
  QueryClient.queries c !! JSON.stringify users_1 = Some seeded_entry /\
  QueryClient.queries (QueryClient.invalidateQuery users_1 c) =
    <[JSON.stringify users_1 :=
        {| CacheEntry.promise := 0%nat; CacheEntry.createdAt := NegInfinity |}]>
      (QueryClient.queries c) /\
  QueryClient.queries c !! JSON.stringify [JString (js "posts")] = None /\
  QueryClient.invalidateQuery [JString (js "posts")] c = c.
Proof.
  cbv zeta.
  assert (QueryClient.queries (seeded users_1).1 !! JSON.stringify users_1 = Some seeded_entry)
    as H1 by reflexivity.
  assert (QueryClient.queries (seeded users_1).1
            !! JSON.stringify [JString (js "posts")] = None) as H2 by reflexivity.
  split; [exact H1 |].
  split; [exact (proj1 (invalidateQuery_frame users_1 _) seeded_entry H1) |].
  split; [exact H2 |].
  exact (proj1 (proj2 (invalidateQuery_frame [JString (js "posts")] _)) H2).
Defined.

Lemma rejection_is_cached_witness :
  let options := options_for None users_1 rejecting_fn in
  let c := (QueryClient.new (Some (Fin 5000)) (initial_World 1000)).1 in
  let w := (QueryClient.new (Some (Fin 5000)) (initial_World 1000)).2 in
  fn_run (queryFn options) (context_of options) = Rejected (JString (js "boom")) /\
  misses options c w /\
  exists p c' w',
    QueryClient.fetchQuery options c w = Some (p, c', w') /\
    promises w' !! p = Some (Rejected (JString (js "boom"))).
Proof.
  cbv zeta.
  assert (misses (options_for None users_1 rejecting_fn)
            (QueryClient.new (Some (Fin 5000)) (initial_World 1000)).1
            (QueryClient.new (Some (Fin 5000)) (initial_World 1000)).2) as H2.
  { split; reflexivity. }
  split; [reflexivity |]. split; [exact H2 |].
  destruct (rejection_is_cached (options_for None users_1 rejecting_fn) _ _
              (JString (js "boom")) eq_refl (or_introl H2))
    as (p & c' & w' & Hfetch & _ & Hp & _).
  by exists p, c', w'.
Defined.

End Instances.

(** ** The repository's tests, replayed on the embedding *)

Section Tests.

(** "serializes queryKey to JSON" *)
Example test_serializes_queryKey :
  Query.key (Query.new (options_for None users_1 resolving_fn) (initial_World 0)) =
  "["%char :: JSON.DQUOTE :: js "users" ++ JSON.DQUOTE :: js ",1]".
Proof. reflexivity. Qed.

(** "deserializes queryKey" *)
Example test_deserializes_queryKey :
  Query.queryKey
    (Query.new (options_for None [JString (js "products"); JString (js "phone")]
                  resolving_fn) (initial_World 0)) =
  Some (JArray [JString (js "products"); JString (js "phone")]).
Proof. reflexivity. Qed.

(** "defaults staleTime from QueryClient.staleTime" *)
Example test_defaults_staleTime :
  let w := set_staleTime (Fin 9999) (initial_World 20000) in
  let q := Query.new (options_for None [JString (js "x")] resolving_fn) w in
  Query.isStale q (Fin (20000 - 9998)) w = false /\
  Query.isStale q (Fin (20000 - 10000)) w = true.
Proof. split; reflexivity. Qed.

(** "returns cached value when not stale" and "refetches when stale" *)
Example test_fetchQuery_staleness :
  let key := [JString (js "f")] in
  let '(c, w) := QueryClient.new (Some (Fin 5)) (initial_World 0) in
  match fetch_sequence
          [(0, options_for None key (fulfilling_fn 1 "v1"));
           (5, options_for None key (fulfilling_fn 2 "v2"));
           (6, options_for None key (fulfilling_fn 3 "v3"))] c w with
  | Some (ps, _, w') =>
      ps = [0; 0; 1]%nat /\
      promises w' = [Fulfilled (JString (js "v1")); Fulfilled (JString (js "v3"))] /\
      map fst (calls w') = [1; 3]%nat
  | None => False
  end.
Proof. vm_compute. done. Qed.

(** "returns existing entry regardless of staleness" *)
Example test_ensureQuery_regardless :
  let key := [JString (js "e2")] in
  let '(c, w) := QueryClient.new (Some (Fin 0)) (initial_World 0) in
  match QueryClient.ensureQuery (options_for None key (fulfilling_fn 1 "original")) c w with
  | Some (p1, c1, w1) =>
      match QueryClient.ensureQuery (options_for None key (fulfilling_fn 2 "nope"))
              c1 (at_time 10 w1) with
      | Some (p2, _, w2) =>
          p2 = p1 /\ promises w2 !! p2 = Some (Fulfilled (JString (js "original"))) /\
          map fst (calls w2) = [1%nat]
      | None => False
      end
  | None => False
  end.
Proof. vm_compute. done. Qed.

(** "invalidates by prefix" *)
Example test_invalidates_by_prefix :
  let phone := [JString (js "products"); JString (js "phone")] in
  let laptop := [JString (js "products"); JString (js "laptop")] in
  let '(c, w) := QueryClient.new (Some (Fin 5000)) (initial_World 1000) in
  let '(c, w) := QueryClient.setQuery phone (JString (js "p1")) c w in
  let '(c, w) := QueryClient.setQuery laptop (JString (js "p2")) c w in
  let '(c, w) := QueryClient.setQuery users_1 (JString (js "u1")) c w in
  let c := QueryClient.invalidateQueries (Some [JString (js "products")]) c in
  CacheEntry.createdAt <$> QueryClient.queries c !! JSON.stringify phone =
    Some NegInfinity /\
  CacheEntry.createdAt <$> QueryClient.queries c !! JSON.stringify laptop =
    Some NegInfinity /\
  CacheEntry.createdAt <$> QueryClient.queries c !! JSON.stringify users_1 =
    Some (Fin 1000) /\
  (exists p, QueryClient.getQuery users_1 c = Some p /\
             promises w !! p = Some (Fulfilled (JString (js "u1")))).
Proof. vm_compute. repeat split. by eexists. Qed.

End Tests.

(** ** Further properties of the cache *)

Section More.

Implicit Types (c : QueryClient.t) (w : World) (options : QueryOptions).

(** X1. For keys whose fragments are [undefined], [null], booleans, integers,
    strings, functions and nested arrays of these (plain objects are not
    in the embedding): two queries have the same canonical key exactly when
    their keys are equal once every unrepresentable fragment is replaced by
    [null]; keys without such fragments share a cache slot only when they
    are equal. *)
Theorem canonical_key_injective options1 options2 w1 w2 :
  (Query.key (Query.new options1 w1) = Query.key (Query.new options2 w2) <->
   map JSON.revived (queryKey options1) = map JSON.revived (queryKey options2)) /\
  (forallb JSON.representable (queryKey options1) = true ->
   forallb JSON.representable (queryKey options2) = true ->
   Query.key (Query.new options1 w1) = Query.key (Query.new options2 w2) ->
   queryKey options1 = queryKey options2).
Proof.
  assert (Query.key (Query.new options1 w1) = Query.key (Query.new options2 w2) <->
          map JSON.revived (queryKey options1) = map JSON.revived (queryKey options2))
    as Hiff.
  { rewrite !Query_key_new. split.
    - intros E. pose proof (JSONFacts.parse_stringify (queryKey options1)) as P1.
      rewrite E, JSONFacts.parse_stringify in P1. by injection P1 as <-.
    - intros E. rewrite <- (JSONFacts.stringify_revived (queryKey options1)), E.
      apply JSONFacts.stringify_revived. }
  split; [exact Hiff |]. intros H1 H2 E. apply Hiff in E.
  assert (forall l, forallb JSON.representable l = true -> map JSON.revived l = l)
    as Hid.
  { induction l as [|x l IH]; [done |]. cbn [forallb map].
    intros [Hx Hl]%andb_true_iff.
    by rewrite (JSONFacts.revived_representable x Hx), IH. }
  by rewrite (Hid _ H1), (Hid _ H2) in E.
Qed.

(** X2. The [JSON.parse] of [queryKey] does not throw on a constructed
    query, and a [fetch(signal)] that returns has called [queryFn] once,
    handing it the signal it was given and [queryKey], the key read back
    from the canonical string; for a key without unrepresentable fragments
    that is the key the query was built from. *)
Theorem fetch_passes_signal_and_key options w0 (sig : option AbortSignal) w :
  Query.queryKey (Query.new options w0) =
    Some (context_queryKey (context_with sig options)) /\
  (forall p w',
     Query.fetch (Query.new options w0) sig w = Some (p, w') ->
     calls w' = calls w ++ [(fn_id (queryFn options), context_with sig options)]) /\
  (forallb JSON.representable (queryKey options) = true ->
   context_queryKey (context_with sig options) = JArray (queryKey options)).
Proof.
  split; [| split].
  - apply Query_queryKey_new.
  - intros p w'. unfold Query.fetch. rewrite Query_queryKey_new. cbn.
    by intros [= <- <-].
  - intros Hrep. cbn. f_equal. induction (queryKey options) as [|x l IH]; [done |].
    cbn [forallb map] in *. apply andb_true_iff in Hrep as [Hx Hl].
    by rewrite (JSONFacts.revived_representable x Hx), IH.
Qed.

(** X3. A [fetchQuery] for a key that is neither cached nor awaiting
    hydration runs [queryFn] once and stores its promise; [getQuery] then
    returns that promise, and every [fetchQuery] for the key at a time no
    more than its finite stale time after the first returns the same
    promise without running [queryFn]. *)
Theorem fetchQuery_populates_then_hits options c w :
  misses options c w ->
  exists p c' w',
    QueryClient.fetchQuery options c w = Some (p, c', w') /\
    calls w' = calls w ++ [(fn_id (queryFn options), context_of options)] /\
    promises w' !! p = Some (fn_run (queryFn options) (context_of options)) /\
    QueryClient.getQuery (queryKey options) c' = Some p /\
    forall options2 (t2 s2 : Z),
      JSON.stringify (queryKey options2) = JSON.stringify (queryKey options) ->
      Query.p_staleTime (Query.new options2 w') = Fin s2 ->
      t2 - now w <= s2 ->
      QueryClient.fetchQuery options2 c' (at_time t2 w') =
      Some (p, c', at_time t2 w').
Proof.
  intros Hmiss. pose proof (fetchQuery_miss _ _ _ Hmiss) as Hfetch.
  cbv zeta in Hfetch. eexists _, _, _. split; [exact Hfetch |].
  split; [apply invoke_calls |]. split; [apply invoke_lookup |].
  split.
  - unfold QueryClient.getQuery, QueryClient.set. cbn [QueryClient.queries].
    by rewrite lookup_insert_eq.
  - intros options2 t2 s2 Hkey Hs Hage.
    apply (fetchQuery_hit options2 _ _
             {| CacheEntry.promise :=
                  (invoke (queryFn options) (context_of options) w).1;
                CacheEntry.createdAt := Fin (now w) |}).
    + unfold QueryClient.set. cbn [QueryClient.queries]. rewrite Hkey.
      apply lookup_insert_eq.
    + unfold Query.isStale. cbn [CacheEntry.createdAt].
      change (Query.p_staleTime (Query.new options2 (at_time t2 (invoke (queryFn options) (context_of options) w).2)))
        with (Query.p_staleTime (Query.new options2 (invoke (queryFn options) (context_of options) w).2)).
      rewrite Hs. cbn. apply Z.ltb_ge. lia.
Qed.

(** X4. A [fetchQuery] that finds an entry older than the finite stale time
    of its query (clock, creation time, stale time and age being safe
    integers) runs [queryFn] and replaces the entry by one created now
    holding the promise of that run; the stale window starts again: every
    [fetchQuery] for the key at a time no more than its finite stale time
    after the refresh returns that promise without running [queryFn]. *)
Theorem fetchQuery_refreshes_aged_entry options c w cached (t s : Z) :
  QueryClient.queries c !! JSON.stringify (queryKey options) = Some cached ->
  CacheEntry.createdAt cached = Fin t ->
  Query.p_staleTime (Query.new options w) = Fin s ->
  safe_integer (now w) /\ safe_integer t /\ safe_integer s /\
    safe_integer (now w - t) ->
  now w - t > s ->
  exists p c' w',
    QueryClient.fetchQuery options c w = Some (p, c', w') /\
    calls w' = calls w ++ [(fn_id (queryFn options), context_of options)] /\
    promises w' !! p = Some (fn_run (queryFn options) (context_of options)) /\
    QueryClient.queries c' =
      <[JSON.stringify (queryKey options) :=
          {| CacheEntry.promise := p; CacheEntry.createdAt := Fin (now w) |}]>
        (QueryClient.queries c) /\
    forall options2 (t2 s2 : Z),
      JSON.stringify (queryKey options2) = JSON.stringify (queryKey options) ->
      Query.p_staleTime (Query.new options2 w') = Fin s2 ->
      t2 - now w <= s2 ->
      QueryClient.fetchQuery options2 c' (at_time t2 w') =
      Some (p, c', at_time t2 w').
Proof.
  intros Hc Ht Hs _ Hage.
  assert (finds_stale options c w) as Hstale.
  { exists cached. split; [done |]. unfold Query.isStale. rewrite Ht, Hs. cbn.
    apply Z.ltb_lt. lia. }
  pose proof (fetchQuery_stale _ _ _ Hstale) as Hfetch. cbv zeta in Hfetch.
  eexists _, _, _. split; [exact Hfetch |]. split; [apply invoke_calls |].
  split; [apply invoke_lookup |]. split; [reflexivity |].
  intros options2 t2 s2 Hkey Hs2 Hage2.
  apply (fetchQuery_hit options2 _ _
           {| CacheEntry.promise :=
                (invoke (queryFn options) (context_of options) w).1;
              CacheEntry.createdAt := Fin (now w) |}).
  - unfold QueryClient.set. cbn [QueryClient.queries]. rewrite Hkey.
    apply lookup_insert_eq.
  - unfold Query.isStale. cbn [CacheEntry.createdAt].
    change (Query.p_staleTime
              (Query.new options2
                 (at_time t2 (invoke (queryFn options) (context_of options) w).2)))
      with (Query.p_staleTime
              (Query.new options2 (invoke (queryFn options) (context_of options) w).2)).
    rewrite Hs2. cbn. apply Z.ltb_ge. lia.
Qed.

(** X5. On the first population of a key whose canonical string has a value
    awaiting hydration, [fetchQuery] and [ensureQuery] store and return
    that value and do not run [queryFn]; on the refresh of a stale entry
    [fetchQuery] runs [queryFn] whatever awaits hydration. *)
Theorem hydration_only_on_first_population options c w (hydrated : Promise) :
  hydration w !! JSON.stringify (queryKey options) = Some hydrated ->
  (QueryClient.queries c !! JSON.stringify (queryKey options) = None ->
   QueryClient.fetchQuery options c w =
     Some (hydrated,
           QueryClient.set (JSON.stringify (queryKey options))
             {| CacheEntry.promise := hydrated;
                CacheEntry.createdAt := Fin (now w) |} c,
           w) /\
   QueryClient.ensureQuery options c w = QueryClient.fetchQuery options c w) /\
  (finds_stale options c w -> recomputes options c w).
Proof.
  intros Hh. split.
  - intros Hc. unfold QueryClient.fetchQuery, QueryClient.ensureQuery, hydratable.
    by rewrite Query_key_new, Hc, Hh.
  - intros Hstale. eexists _, _, _.
    split; [by apply fetchQuery_stale | apply invoke_calls].
Qed.

(** X6. [ensureQuery] and [fetchQuery] differ only on a stale entry: when
    the entry found is not stale, or there is none, they return the same
    promise and leave the same cache and world; on a stale entry
    [ensureQuery] returns the held promise and changes nothing while
    [fetchQuery] runs [queryFn]. *)
Theorem ensureQuery_is_fetchQuery_unless_stale options c w :
  (~ finds_stale options c w ->
   QueryClient.ensureQuery options c w = QueryClient.fetchQuery options c w) /\
  (forall cached,
     QueryClient.queries c !! JSON.stringify (queryKey options) = Some cached ->
     Query.isStale (Query.new options w) (CacheEntry.createdAt cached) w = true ->
     QueryClient.ensureQuery options c w = Some (CacheEntry.promise cached, c, w) /\
     recomputes options c w).
Proof.
  split.
  - intros Hfresh. unfold QueryClient.ensureQuery, QueryClient.fetchQuery.
    rewrite Query_key_new.
    destruct (QueryClient.queries c !! JSON.stringify (queryKey options))
      as [cached|] eqn:Hc; [| done].
    destruct (Query.isStale (Query.new options w) (CacheEntry.createdAt cached) w)
      eqn:Hs; [| done].
    exfalso. apply Hfresh. by exists cached.
  - intros cached Hc Hs. split.
    + unfold QueryClient.ensureQuery. by rewrite Query_key_new, Hc.
    + eexists _, _, _. split; [| apply invoke_calls].
      apply fetchQuery_stale. by exists cached.
Qed.

(** X7. [removeQuery(query)] deletes the entry under the canonical key of
    [query], whatever the stale time and [queryFn] of that query: [getQuery]
    for the key is then [undefined], the entry of every other canonical key
    is as before, and on a key without entry the client is unchanged.  The
    next [ensureQuery] for the key, nothing awaiting hydration, runs
    [queryFn]. *)
Theorem removeQuery_removes options c w0 :
  let c' := QueryClient.removeQuery (Query.new options w0) c in
  QueryClient.getQuery (queryKey options) c' = None /\
  (forall k, k <> JSON.stringify (queryKey options) ->
     QueryClient.queries c' !! k = QueryClient.queries c !! k) /\
  (QueryClient.queries c !! JSON.stringify (queryKey options) = None -> c' = c) /\
  (forall options2 w2,
     JSON.stringify (queryKey options2) = JSON.stringify (queryKey options) ->
     QueryClient.removeQuery (Query.new options2 w2) c = c') /\
  (forall options2 w,
     JSON.stringify (queryKey options2) = JSON.stringify (queryKey options) ->
     hydration w !! JSON.stringify (queryKey options2) = None ->
     exists p c2 w2,
       QueryClient.ensureQuery options2 c' w = Some (p, c2, w2) /\
       calls w2 = calls w ++ [(fn_id (queryFn options2), context_of options2)]).
Proof.
  cbv zeta. unfold QueryClient.removeQuery, QueryClient.getQuery.
  rewrite Query_key_new. cbn [QueryClient.queries].
  split; [by rewrite lookup_delete_eq |].
  split; [intros k Hk; by rewrite lookup_delete_ne |].
  split; [| split].
  - intros Hnone. destruct c as [m]. cbn [QueryClient.queries] in *. f_equal.
    by apply delete_id.
  - intros options2 w2 Hkey. by rewrite Query_key_new, Hkey.
  - intros options2 w Hkey Hh. unfold QueryClient.ensureQuery, hydratable.
    rewrite Query_key_new. cbn [QueryClient.queries].
    rewrite Hkey, lookup_delete_eq. rewrite <- Hkey, Hh, Query_fetch_new.
    cbn. eexists _, _, _. split; [reflexivity |]. reflexivity.
Qed.

(** X8. After [clear()] no key has an entry, and a [fetchQuery] or an
    [ensureQuery] for any key, nothing awaiting hydration, runs [queryFn],
    whatever the stale time of the query: also [Infinity], under which an
    invalidated entry would have been returned. *)
Theorem clear_forces_recompute options c w :
  hydration w !! JSON.stringify (queryKey options) = None ->
  (forall key, QueryClient.getQuery key (QueryClient.clear c) = None) /\
  recomputes options (QueryClient.clear c) w /\
  QueryClient.ensureQuery options (QueryClient.clear c) w =
  QueryClient.fetchQuery options (QueryClient.clear c) w.
Proof.
  intros Hh.
  assert (misses options (QueryClient.clear c) w) as Hmiss.
  { split; [apply lookup_empty | exact Hh]. }
  split; [| split].
  - intros key. unfold QueryClient.getQuery, QueryClient.clear.
    cbn [QueryClient.queries]. by rewrite lookup_empty.
  - eexists _, _, _. split; [by apply fetchQuery_miss | apply invoke_calls].
  - unfold QueryClient.ensureQuery, QueryClient.fetchQuery, QueryClient.clear.
    cbn [QueryClient.queries]. by rewrite lookup_empty.
Qed.

(** X9. [setQuery] seeds the cache: a [fetchQuery] for the key at a time no
    more than its finite stale time after the [setQuery] returns the seeded
    promise, fulfilled with the value set, and does not run [queryFn]. *)
Theorem setQuery_seeds_fetchQuery (key : list JsValue) (v : JsValue) c w
    options (t2 s : Z) :
  JSON.stringify (queryKey options) = JSON.stringify key ->
  Query.p_staleTime (Query.new options w) = Fin s ->
  t2 - now w <= s ->
  let c' := (QueryClient.setQuery key v c w).1 in
  let w' := at_time t2 (QueryClient.setQuery key v c w).2 in
  exists p,
    QueryClient.fetchQuery options c' w' = Some (p, c', w') /\
    promises w' !! p = Some (Fulfilled v) /\
    calls w' = calls w.
Proof.
  intros Hkey Hs Hage. cbv zeta. exists (length (promises w)).
  split; [| split].
  - apply (fetchQuery_hit options _ _
             {| CacheEntry.promise := length (promises w);
                CacheEntry.createdAt := Fin (now w) |}).
    + rewrite Hkey. cbn. apply lookup_insert_eq.
    + unfold Query.isStale. cbn [CacheEntry.createdAt].
      change (Query.p_staleTime
                (Query.new options (at_time t2 (QueryClient.setQuery key v c w).2)))
        with (Query.p_staleTime (Query.new options w)).
      rewrite Hs. cbn. apply Z.ltb_ge. lia.
  - cbn. by rewrite lookup_app_r, Nat.sub_diag.
  - reflexivity.
Qed.

(** X10. [setQuery] touches one slot: [getQuery] for a key of another
    canonical string returns what it returned before; and of two
    [setQuery] on one key the last wins, the promise of the first staying
    fulfilled with the first value for whoever holds it. *)
Theorem setQuery_frame_last_wins (key : list JsValue) (v1 v2 : JsValue) c w :
  let r1 := QueryClient.setQuery key v1 c w in
  let r2 := QueryClient.setQuery key v2 r1.1 r1.2 in
  (forall other,
     JSON.stringify other <> JSON.stringify key ->
     QueryClient.getQuery other r1.1 = QueryClient.getQuery other c) /\
  (exists p1 p2,
     QueryClient.getQuery key r1.1 = Some p1 /\
     QueryClient.getQuery key r2.1 = Some p2 /\
     p1 <> p2 /\
     promises r2.2 !! p2 = Some (Fulfilled v2) /\
     promises r2.2 !! p1 = Some (Fulfilled v1)) /\
  QueryClient.queries r2.1 = QueryClient.queries (QueryClient.setQuery key v2 c r1.2).1.
Proof.
  cbv zeta. split; [| split].
  - intros other Hother. unfold QueryClient.getQuery. cbn.
    by rewrite lookup_insert_ne.
  - exists (length (promises w)), (S (length (promises w))).
    unfold QueryClient.getQuery. cbn. rewrite !lookup_insert_eq.
    rewrite length_app. cbn [length]. rewrite Nat.add_1_r.
    split; [done |]. split; [done |]. split; [lia |]. split.
    + rewrite lookup_app_r by (rewrite length_app; cbn; lia).
      rewrite length_app. cbn [length].
      by replace (S (length (promises w)) - (length (promises w) + 1))%nat
        with 0%nat by lia.
    + rewrite <- app_assoc. rewrite lookup_app_r by lia.
      by rewrite Nat.sub_diag.
  - cbn. by rewrite insert_insert_eq.
Qed.


(** X11. Invalidation deletes nothing: after [invalidateQuery] or
    [invalidateQueries], whatever their argument, [getQuery] returns for
    every key the promise it returned before, and [ensureQuery] on a cached
    key still returns the held promise without running [queryFn]. *)
Theorem invalidation_keeps_promises (target : list JsValue)
    (prefix : option (list JsValue)) c :
  (forall key,
     QueryClient.getQuery key (QueryClient.invalidateQuery target c) =
     QueryClient.getQuery key c) /\
  (forall key,
     QueryClient.getQuery key (QueryClient.invalidateQueries prefix c) =
     QueryClient.getQuery key c) /\
  (forall options w cached,
     QueryClient.queries c !! JSON.stringify (queryKey options) = Some cached ->
     let c1 := QueryClient.invalidateQueries prefix
                 (QueryClient.invalidateQuery target c) in
     QueryClient.ensureQuery options c1 w = Some (CacheEntry.promise cached, c1, w)).
Proof.
  split; [| split].
  - intros key. unfold QueryClient.getQuery. rewrite lookup_invalidateQuery.
    case_decide; [| done].
    by destruct (QueryClient.queries c !! JSON.stringify key).
  - intros key. unfold QueryClient.getQuery. rewrite lookup_invalidateQueries.
    destruct (QueryClient.queries c !! JSON.stringify key) as [e|]; [| done].
    cbn. by destruct (startsWith _ _).
  - intros options w cached Hc c1. unfold QueryClient.ensureQuery.
    rewrite Query_key_new. unfold c1.
    rewrite lookup_invalidateQueries, lookup_invalidateQuery, Hc.
    case_decide; cbn; by destruct (startsWith _ _).
Qed.

(** X12. [invalidateQueries(prefix)] invalidates every stored key whose
    fragments are those of [prefix] followed by any others, and
    [invalidateQueries()] every stored key: the next [fetchQuery] for such
    a key with a finite stale time runs [queryFn]. *)
Theorem invalidateQueries_forces_refetch (prefix : option (list JsValue))
    (rest : list JsValue) options c w cached (s : Z) :
  queryKey options = default [] prefix ++ rest ->
  QueryClient.queries c !! JSON.stringify (queryKey options) = Some cached ->
  Query.p_staleTime (Query.new options w) = Fin s ->
  QueryClient.queries (QueryClient.invalidateQueries prefix c)
    !! JSON.stringify (queryKey options) =
    Some {| CacheEntry.promise := CacheEntry.promise cached;
            CacheEntry.createdAt := NegInfinity |} /\
  recomputes options (QueryClient.invalidateQueries prefix c) w.
Proof.
  intros Hkey Hc Hs.
  assert (QueryClient.queries (QueryClient.invalidateQueries prefix c)
            !! JSON.stringify (queryKey options) =
          Some (CacheEntry.invalidate cached)) as Hinv.
  { rewrite lookup_invalidateQueries, Hc. cbn [fmap option_fmap option_map].
    by rewrite Hkey, startsWith_fragments. }
  split; [exact Hinv |].
  eexists _, _, _. split; [| apply invoke_calls].
  apply fetchQuery_stale. exists (CacheEntry.invalidate cached).
  split; [exact Hinv |]. unfold Query.isStale. by rewrite Hs.
Qed.

(** X13. For a prefix that ends in a string, a boolean, [null] or an array
    (anything but a finite number), [invalidateQueries(prefix)] leaves
    untouched the entry of every key whose fragments do not begin with
    those of the prefix, unrepresentable fragments counting as [null]: a
    [fetchQuery] for such a key that found its entry fresh before still
    does. *)
Theorem invalidateQueries_spares_other_keys (prefix : list JsValue) options c w cached :
  ends_self_delimiting prefix ->
  ~ map JSON.revived prefix `prefix_of` map JSON.revived (queryKey options) ->
  QueryClient.queries c !! JSON.stringify (queryKey options) = Some cached ->
  Query.isStale (Query.new options w) (CacheEntry.createdAt cached) w = false ->
  let c1 := QueryClient.invalidateQueries (Some prefix) c in
  QueryClient.queries c1 !! JSON.stringify (queryKey options) = Some cached /\
  QueryClient.fetchQuery options c1 w = Some (CacheEntry.promise cached, c1, w).
Proof.
  intros Hlast Hnot Hc Hs c1.
  assert (QueryClient.queries c1 !! JSON.stringify (queryKey options) = Some cached)
    as Hsame.
  { unfold c1. rewrite lookup_invalidateQueries, Hc.
    change (default [] (Some prefix)) with prefix.
    destruct (startsWith (JSON.stringify (queryKey options)) _) eqn:E; [| done].
    exfalso. apply Hnot. by apply (startsWith_fragmentwise prefix). }
  split; [exact Hsame |]. by apply fetchQuery_hit.
Qed.

(** X14. Under a stale time of [Infinity] or [NaN] nothing is ever stale:
    [fetchQuery] returns the promise of whatever entry the key has, also an
    invalidated one, at any time, and does not run [queryFn]. *)
Theorem never_stale_entry_is_kept options c w cached :
  never_stale (Query.p_staleTime (Query.new options w)) ->
  QueryClient.queries c !! JSON.stringify (queryKey options) = Some cached ->
  QueryClient.fetchQuery options c w = Some (CacheEntry.promise cached, c, w) /\
  QueryClient.fetchQuery options
    (QueryClient.invalidateQueries None
       (QueryClient.invalidateQuery (queryKey options) c)) w =
  Some (CacheEntry.promise cached,
        QueryClient.invalidateQueries None
          (QueryClient.invalidateQuery (queryKey options) c), w).
Proof.
  intros Hnever Hc.
  assert (forall lastUpdated,
            Query.isStale (Query.new options w) lastUpdated w = false) as Hfresh.
  { intros lastUpdated. unfold Query.isStale.
    destruct Hnever as [-> | ->]; by destruct lastUpdated. }
  split; [by apply fetchQuery_hit |].
  apply (fetchQuery_hit options _ _
           (CacheEntry.invalidate (CacheEntry.invalidate cached))).
  - rewrite lookup_invalidateQueries, lookup_invalidateQuery, Hc.
    by rewrite decide_True by done.
  - apply Hfresh.
Qed.






Lemma client_eq c c' :
  (forall k, QueryClient.queries c !! k = QueryClient.queries c' !! k) -> c = c'.
Proof. destruct c, c'. cbn. intros H. f_equal. by apply map_eq. Qed.

(** X17. Invalidations neither accumulate nor depend on their order:
    repeating an [invalidateQuery] or an [invalidateQueries] leaves the
    client as the first left it, and two invalidations, exact or by prefix,
    give the same client in either order. *)
Theorem invalidation_idempotent_and_commutes (k1 k2 : list JsValue)
    (p1 p2 : option (list JsValue)) c :
  QueryClient.invalidateQuery k1 (QueryClient.invalidateQuery k1 c) =
    QueryClient.invalidateQuery k1 c /\
  QueryClient.invalidateQueries p1 (QueryClient.invalidateQueries p1 c) =
    QueryClient.invalidateQueries p1 c /\
  QueryClient.invalidateQuery k1 (QueryClient.invalidateQuery k2 c) =
    QueryClient.invalidateQuery k2 (QueryClient.invalidateQuery k1 c) /\
  QueryClient.invalidateQuery k1 (QueryClient.invalidateQueries p1 c) =
    QueryClient.invalidateQueries p1 (QueryClient.invalidateQuery k1 c) /\
  QueryClient.invalidateQueries p1 (QueryClient.invalidateQueries p2 c) =
    QueryClient.invalidateQueries p2 (QueryClient.invalidateQueries p1 c).
Proof.
  repeat split; apply client_eq; intros k;
    rewrite ?lookup_invalidateQuery, ?lookup_invalidateQueries,
            ?lookup_invalidateQuery, ?lookup_invalidateQueries;
    destruct (QueryClient.queries c !! k) as [e|]; cbn;
    repeat case_decide; repeat (destruct (startsWith _ _)); reflexivity.
Qed.


(** X18. A read touches one slot: whatever [fetchQuery], [ensureQuery] or an
    evaluation of the [entry] derivation of [createQuery] does for a key,
    the entry of every other canonical key is the one it was, and the slot
    of the key itself holds an entry with the promise returned. *)
Theorem read_touches_only_its_key options (sig : AbortSignal) c w :
  (forall p c' w',
     QueryClient.fetchQuery options c w = Some (p, c', w') \/
     QueryClient.ensureQuery options c w = Some (p, c', w') ->
     QueryClient.getQuery (queryKey options) c' = Some p /\
     forall k, k <> JSON.stringify (queryKey options) ->
       QueryClient.queries c' !! k = QueryClient.queries c !! k) /\
  (forall e c' w',
     createQuery_entry options sig c w = Some (e, c', w') ->
     QueryClient.queries c' !! JSON.stringify (queryKey options) = Some e /\
     forall k, k <> JSON.stringify (queryKey options) ->
       QueryClient.queries c' !! k = QueryClient.queries c !! k).
Proof.
  split.
  - intros p c' w'. unfold QueryClient.fetchQuery, QueryClient.ensureQuery,
      QueryClient.getQuery, hydratable.
    rewrite Query_key_new, !Query_fetch_new.
    destruct (QueryClient.queries c !! JSON.stringify (queryKey options))
      as [cached|] eqn:Hc.
    + destruct (Query.isStale _ _ _); cbn;
        intros [[= <- <- <-] | [= <- <- <-]]; cbn;
        rewrite ?lookup_insert_eq, ?Hc; (split; [done |]);
        intros k Hk; by rewrite ?lookup_insert_ne.
    + destruct (hydration w !! _); cbn;
        intros [[= <- <- <-] | [= <- <- <-]]; cbn;
        rewrite ?lookup_insert_eq; (split; [done |]);
        intros k Hk; by rewrite ?lookup_insert_ne.
  - intros e c' w'. unfold createQuery_entry, hydratable, Query.fetch.
    rewrite Query_key_new, !Query_queryKey_new.
    destruct (QueryClient.queries c !! JSON.stringify (queryKey options))
      as [cached|] eqn:Hc.
    + destruct (Query.isStale _ _ _); cbn; intros [= <- <- <-]; cbn;
        rewrite ?lookup_insert_eq, ?Hc; (split; [done |]);
        intros k Hk; by rewrite ?lookup_insert_ne.
    + destruct (hydration w !! _); cbn; intros [= <- <- <-]; cbn;
        rewrite ?lookup_insert_eq; (split; [done |]);
        intros k Hk; by rewrite ?lookup_insert_ne.
Qed.

End More.

(** ** The further properties at concrete states *)

Section MoreInstances.

Lemma fetchQuery_populates_then_hits_witness :
  let options := options_for None users_1 resolving_fn in
  misses options fresh_client.1 fresh_client.2 /\
  exists p c' w',
    QueryClient.fetchQuery options fresh_client.1 fresh_client.2 = Some (p, c', w') /\
    QueryClient.getQuery users_1 c' = Some p /\
    QueryClient.fetchQuery options c' (at_time 6000 w') = Some (p, c', at_time 6000 w').
Proof.
  cbv zeta.
  assert (misses (options_for None users_1 resolving_fn) fresh_client.1 fresh_client.2)
    as H1 by (split; reflexivity).
  split; [exact H1 |].
  destruct (fetchQuery_populates_then_hits _ _ _ H1)
    as (p & c' & w' & Hfetch & _ & _ & Hget & Hhit).
  exists p, c', w'. split; [exact Hfetch |]. split; [exact Hget |].
  injection Hfetch as _ _ <-.
  apply (Hhit (options_for None users_1 resolving_fn) 6000 5000);
    [reflexivity | reflexivity | cbn; lia].
Defined.

Lemma fetchQuery_refreshes_aged_entry_witness :
  let options := options_for None users_1 resolving_fn in
  let c := (seeded users_1).1 in
  let w := at_time 7000 (seeded users_1).2 in
  QueryClient.queries c !! JSON.stringify (queryKey options) = Some seeded_entry /\
  CacheEntry.createdAt seeded_entry = Fin 1000 /\
  Query.p_staleTime (Query.new options w) = Fin 5000 /\
  (safe_integer (now w) /\ safe_integer 1000 /\ safe_integer 5000 /\
     safe_integer (now w - 1000)) /\
  now w - 1000 > 5000 /\
  exists p c' w',
    QueryClient.fetchQuery options c w = Some (p, c', w') /\
    QueryClient.queries c' =
      <[JSON.stringify (queryKey options) :=
          {| CacheEntry.promise := p; CacheEntry.createdAt := Fin 7000 |}]>
        (QueryClient.queries c).
Proof.
  cbv zeta.
  assert (QueryClient.queries (seeded users_1).1
            !! JSON.stringify (queryKey (options_for None users_1 resolving_fn)) =
          Some seeded_entry) as H1 by reflexivity.
  assert (safe_integer (now (at_time 7000 (seeded users_1).2)) /\
          safe_integer 1000 /\ safe_integer 5000 /\
          safe_integer (now (at_time 7000 (seeded users_1).2) - 1000)) as H4.
  { unfold safe_integer. cbn. lia. }
  assert (now (at_time 7000 (seeded users_1).2) - 1000 > 5000) as H5 by (cbn; lia).
  split; [exact H1 |]. split; [reflexivity |]. split; [reflexivity |].
  split; [exact H4 |]. split; [exact H5 |].
  destruct (fetchQuery_refreshes_aged_entry
              (options_for None users_1 resolving_fn) (seeded users_1).1
              (at_time 7000 (seeded users_1).2) seeded_entry 1000 5000
              H1 eq_refl eq_refl H4 H5)
    as (p & c' & w' & Hfetch & _ & _ & Hentry & _).
  by exists p, c', w'.
Defined.

Lemma hydration_only_on_first_population_witness :
  let options := options_for None users_1 resolving_fn in
  let c := (QueryClient.new (Some (Fin 5000)) hydrating_World).1 in
  hydration hydrating_World !! JSON.stringify (queryKey options) = Some 0%nat /\
  QueryClient.queries c !! JSON.stringify (queryKey options) = None /\
  QueryClient.fetchQuery options c hydrating_World =
    Some (0%nat,
          QueryClient.set (JSON.stringify users_1)
            {| CacheEntry.promise := 0%nat; CacheEntry.createdAt := Fin 1000 |} c,
          hydrating_World).
Proof.
  cbv zeta.
  assert (hydration hydrating_World
            !! JSON.stringify (queryKey (options_for None users_1 resolving_fn)) =
          Some 0%nat) as H1 by reflexivity.
  assert (QueryClient.queries (QueryClient.new (Some (Fin 5000)) hydrating_World).1
            !! JSON.stringify (queryKey (options_for None users_1 resolving_fn)) =
          None) as H2 by reflexivity.
  split; [exact H1 |]. split; [exact H2 |].
  exact (proj1 (proj1 (hydration_only_on_first_population
                         (options_for None users_1 resolving_fn)
                         (QueryClient.new (Some (Fin 5000)) hydrating_World).1
                         hydrating_World 0%nat H1) H2)).
Defined.

Lemma clear_forces_recompute_witness :
  let options := options_for (Some Infinity) users_1 resolving_fn in
  let c := (seeded users_1).1 in
  let w := (seeded users_1).2 in
  hydration w !! JSON.stringify (queryKey options) = None /\
  recomputes options (QueryClient.clear c) w.
Proof.
  cbv zeta.
  assert (hydration (seeded users_1).2
            !! JSON.stringify (queryKey (options_for (Some Infinity) users_1 resolving_fn)) =
          None) as H1 by reflexivity.
  split; [exact H1 |].
  exact (proj1 (proj2 (clear_forces_recompute _ (seeded users_1).1 _ H1))).
Defined.

Lemma setQuery_seeds_fetchQuery_witness :
  let options := options_for None users_1 resolving_fn in
  let c := fresh_client.1 in
  let w := fresh_client.2 in
  JSON.stringify (queryKey options) = JSON.stringify users_1 /\
  Query.p_staleTime (Query.new options w) = Fin 5000 /\
  6000 - now w <= 5000 /\
  exists p,
    QueryClient.fetchQuery options (QueryClient.setQuery users_1 JNull c w).1
      (at_time 6000 (QueryClient.setQuery users_1 JNull c w).2) =
    Some (p, (QueryClient.setQuery users_1 JNull c w).1,
          at_time 6000 (QueryClient.setQuery users_1 JNull c w).2).
Proof.
  cbv zeta.
  assert (6000 - now fresh_client.2 <= 5000) as H3 by (cbn; lia).
  split; [reflexivity |]. split; [reflexivity |]. split; [exact H3 |].
  destruct (setQuery_seeds_fetchQuery users_1 JNull fresh_client.1 fresh_client.2
              (options_for None users_1 resolving_fn) 6000 5000
              eq_refl eq_refl H3) as (p & Hfetch & _).
  by exists p.
Defined.

Lemma invalidateQueries_forces_refetch_witness :
  let options := options_for (Some (Fin 5000)) users_1 resolving_fn in
  let prefix := Some [JString (js "users")] in
  let c := (seeded users_1).1 in
  let w := (seeded users_1).2 in
  queryKey options = default [] prefix ++ [JNumber (Fin 1)] /\
  QueryClient.queries c !! JSON.stringify (queryKey options) = Some seeded_entry /\
  Query.p_staleTime (Query.new options w) = Fin 5000 /\
  recomputes options (QueryClient.invalidateQueries prefix c) w.
Proof.
  cbv zeta.
  assert (QueryClient.queries (seeded users_1).1
            !! JSON.stringify
                 (queryKey (options_for (Some (Fin 5000)) users_1 resolving_fn)) =
          Some seeded_entry) as H2 by reflexivity.
  split; [reflexivity |]. split; [exact H2 |]. split; [reflexivity |].
  exact (proj2 (invalidateQueries_forces_refetch (Some [JString (js "users")])
                  [JNumber (Fin 1)]
                  (options_for (Some (Fin 5000)) users_1 resolving_fn)
                  (seeded users_1).1 (seeded users_1).2 seeded_entry 5000
                  eq_refl H2 eq_refl)).
Defined.

Lemma invalidateQueries_spares_other_keys_witness :
  let options := options_for None users_1 resolving_fn in
  let prefix := [JString (js "user")] in
  let c := (seeded users_1).1 in
  let w := (seeded users_1).2 in
  ends_self_delimiting prefix /\
  ~ map JSON.revived prefix `prefix_of` map JSON.revived (queryKey options) /\
  QueryClient.queries c !! JSON.stringify (queryKey options) = Some seeded_entry /\
  Query.isStale (Query.new options w) (CacheEntry.createdAt seeded_entry) w = false /\
  QueryClient.queries (QueryClient.invalidateQueries (Some prefix) c)
    !! JSON.stringify (queryKey options) = Some seeded_entry.
Proof.
  cbv zeta.
  assert (ends_self_delimiting [JString (js "user")]) as H1 by reflexivity.
  assert (~ map JSON.revived [JString (js "user")]
            `prefix_of` map JSON.revived
                          (queryKey (options_for None users_1 resolving_fn))) as H2.
  { intros [r Hr]. discriminate. }
  assert (QueryClient.queries (seeded users_1).1
            !! JSON.stringify (queryKey (options_for None users_1 resolving_fn)) =
          Some seeded_entry) as H3 by reflexivity.
  split; [exact H1 |]. split; [exact H2 |]. split; [exact H3 |].
  split; [reflexivity |].
  exact (proj1 (invalidateQueries_spares_other_keys [JString (js "user")]
                  (options_for None users_1 resolving_fn)
                  (seeded users_1).1 (seeded users_1).2 seeded_entry
                  H1 H2 H3 eq_refl)).
Defined.

Lemma never_stale_entry_is_kept_witness :
  let options := options_for (Some Infinity) users_1 resolving_fn in
  let c := (seeded users_1).1 in
  let w := at_time 999999 (seeded users_1).2 in
  never_stale (Query.p_staleTime (Query.new options w)) /\
  QueryClient.queries c !! JSON.stringify (queryKey options) = Some seeded_entry /\
  QueryClient.fetchQuery options c w = Some (0%nat, c, w).
Proof.
  cbv zeta.
  assert (never_stale
            (Query.p_staleTime
               (Query.new (options_for (Some Infinity) users_1 resolving_fn)
                  (at_time 999999 (seeded users_1).2)))) as H1 by (by left).
  assert (QueryClient.queries (seeded users_1).1
            !! JSON.stringify
                 (queryKey (options_for (Some Infinity) users_1 resolving_fn)) =
          Some seeded_entry) as H2 by reflexivity.
  split; [exact H1 |]. split; [exact H2 |].
  exact (proj1 (never_stale_entry_is_kept _ _ _ seeded_entry H1 H2)).
Defined.


End MoreInstances.
